(** * EMVCo-style merchant QR payload codec (EmvoQrGenerator)

    Shallow embedding of the TLV encoder, the CRC-16 checksum and the TLV
    decoder of [src/components/ScannerPage.tsx] (component [EmvoQrGenerator]),
    followed by the properties of the codec.

    JavaScript strings are sequences of UTF-16 code units; they are modelled
    as lists of integers, one per code unit.  JavaScript numbers are modelled
    as [Z]; the 32-bit wrap-around of the bit operators is written out. *)

From Stdlib Require Import ZArith Lia String Ascii.
From stdpp Require Import base tactics option list gmap.

Open Scope Z_scope.

(** ** JavaScript primitives used by the codec *)

Module JS.

(** A string is the list of its UTF-16 code units. *)
Abbreviation jsstring := (list Z).

Definition code_of_ascii (a : ascii) : Z := Z.of_N (N_of_ascii a).

(** ASCII literal to JavaScript string. *)
Fixpoint js (s : string) : jsstring :=
  match s with
  | EmptyString => []
  | String a r => code_of_ascii a :: js r
  end.

(** [str.length] *)
Definition js_length (s : jsstring) : Z := Z.of_nat (length s).

(** [a || b] on strings: the empty string is the only falsy string. *)
Definition js_or (a b : jsstring) : jsstring :=
  match a with
  | [] => b
  | _ :: _ => a
  end.

(** [o[k] || b] where [o[k]] may be [undefined]. *)
Definition js_or_undef (a : option jsstring) (b : jsstring) : jsstring :=
  match a with
  | Some v => js_or v b
  | None => b
  end.

Definition clamp (len i : Z) : Z := Z.min (Z.max i 0) len.

(** [s.substring(start, end)]: both indices are clamped to [0, length]
    and swapped when out of order. *)
Definition substring (s : jsstring) (start end_ : Z) : jsstring :=
  let len := js_length s in
  let finalStart := clamp len start in
  let finalEnd := clamp len end_ in
  let from := Z.min finalStart finalEnd in
  let to := Z.max finalStart finalEnd in
  take (Z.to_nat (to - from)) (drop (Z.to_nat from) s).

(** White space and line terminators skipped by [parseInt]. *)
Definition isStrWhiteSpaceChar (c : Z) : bool :=
  existsb (Z.eqb c)
    [9; 10; 11; 12; 13; 32; 160; 0x1680; 0x2028; 0x2029; 0x202F; 0x205F;
     0x3000; 0xFEFF]
  || ((0x2000 <=? c) && (c <=? 0x200A)).

Fixpoint trimStart (s : jsstring) : jsstring :=
  match s with
  | c :: r => if isStrWhiteSpaceChar c then trimStart r else s
  | [] => []
  end.

Definition digitValue (c : Z) : option Z :=
  if (48 <=? c) && (c <=? 57) then Some (c - 48) else None.

(** Longest prefix of decimal digits; [None] when there is none. *)
Fixpoint parseDigits (s : jsstring) (acc : option Z) : option Z :=
  match s with
  | c :: r =>
      match digitValue c with
      | Some d => parseDigits r (Some (10 * default 0 acc + d))
      | None => acc
      end
  | [] => acc
  end.

(** [parseInt(s, 10)]; [None] is [NaN].  Leading white space is skipped,
    one sign is accepted, then the longest run of decimal digits is read.
    (The result is exact: the call sites pass at most two characters.) *)
Definition parseInt (s : jsstring) : option Z :=
  match trimStart s with
  | 45 :: r => Z.opp <$> parseDigits r None
  | 43 :: r => parseDigits r None
  | t => parseDigits t None
  end.

Definition digitChar (d : Z) : Z := if d <? 10 then 48 + d else 87 + d.

Fixpoint digits_of (fuel : nat) (radix n : Z) (acc : jsstring) : jsstring :=
  match fuel with
  | O => acc
  | S f =>
      let acc' := digitChar (n mod radix) :: acc in
      if n / radix =? 0 then acc' else digits_of f radix (n / radix) acc'
  end.

(** [n.toString(radix)] for an integer [n]: lowercase digits, no leading
    zero, a minus sign for negative numbers.  A number has no more digits
    than bits, which bounds the recursion. *)
Definition toString (radix n : Z) : jsstring :=
  if n <? 0
  then 45 :: digits_of (S (Z.to_nat (Z.log2 (- n)))) radix (- n) []
  else digits_of (S (Z.to_nat (Z.log2 n))) radix n [].

(** [s.toUpperCase()], on the ASCII letters (the codec applies it to the
    output of [toString(16)] only). *)
Definition toUpperCase (s : jsstring) : jsstring :=
  map (fun c => if (97 <=? c) && (c <=? 122) then c - 32 else c) s.

(** [s.padStart(targetLength, fill)] for a one-character [fill]. *)
Definition padStart (targetLength fill : Z) (s : jsstring) : jsstring :=
  replicate (Z.to_nat (targetLength - js_length s)) fill ++ s.

(** [ToInt32]: the wrap-around applied to the operands and the result of
    the bit operators. *)
Definition ToInt32 (z : Z) : Z :=
  let m := z mod 2 ^ 32 in
  if m <? 2 ^ 31 then m else m - 2 ^ 32.

Definition shl (a b : Z) : Z := ToInt32 (Z.shiftl (ToInt32 a) (b mod 32)).
Definition xor (a b : Z) : Z := ToInt32 (Z.lxor (ToInt32 a) (ToInt32 b)).
Definition and (a b : Z) : Z := ToInt32 (Z.land (ToInt32 a) (ToInt32 b)).

Definition utf8_of_codepoint (cp : Z) : list Z :=
  if cp <? 0x80 then [cp]
  else if cp <? 0x800 then [0xC0 + cp / 64; 0x80 + cp mod 64]
  else if cp <? 0x10000 then
    [0xE0 + cp / 4096; 0x80 + (cp / 64) mod 64; 0x80 + cp mod 64]
  else
    [0xF0 + cp / 262144; 0x80 + (cp / 4096) mod 64;
     0x80 + (cp / 64) mod 64; 0x80 + cp mod 64].

Definition isHighSurrogate (c : Z) : bool := (0xD800 <=? c) && (c <=? 0xDBFF).
Definition isLowSurrogate (c : Z) : bool := (0xDC00 <=? c) && (c <=? 0xDFFF).

(** [new TextEncoder().encode(s)]: the UTF-8 octets of [s]; a surrogate
    pair is one code point, a lone surrogate becomes U+FFFD. *)
Fixpoint TextEncoder_encode (s : jsstring) : list Z :=
  match s with
  | [] => []
  | c :: r =>
      if isHighSurrogate c then
        match r with
        | d :: r' =>
            if isLowSurrogate d
            then utf8_of_codepoint
                   (0x10000 + (c - 0xD800) * 1024 + (d - 0xDC00))
                 ++ TextEncoder_encode r'
            else utf8_of_codepoint 0xFFFD ++ TextEncoder_encode r
        | [] => utf8_of_codepoint 0xFFFD
        end
      else if isLowSurrogate c
      then utf8_of_codepoint 0xFFFD ++ TextEncoder_encode r
      else utf8_of_codepoint c ++ TextEncoder_encode r
  end.

End JS.

Import JS.
Arguments js s%_string.

(** ** The data model *)

Record AdditionalData := mkAdditionalData {
  ad00 : jsstring;
  ad01 : jsstring;
  ad02 : jsstring
}.

Record EmvoQrData := mkEmvoQrData {
  payloadFormatIndicator : jsstring;
  pointOfInitiationMethod : jsstring;
  merchantAccountInfo : jsstring;
  merchantId : jsstring;
  merchantCategoryCode : jsstring;
  transactionCurrency : jsstring;
  countryCode : jsstring;
  merchantName : jsstring;
  merchantCity : jsstring;
  additionalData : AdditionalData;
  crc : jsstring
}.

(** [TLVTag]: one node of the displayed TLV tree. *)
#[warnings="-register-all"]
Inductive TLVTag := mkTLVTag {
  tlv_tag : jsstring;
  tlv_value : jsstring;
  tlv_length : Z;
  subTags : option (list TLVTag)
}.

(** The initial state of the form ([useState<EmvoQrData>]). *)
Definition initialFormData : EmvoQrData := {|
  payloadFormatIndicator := js "01";
  pointOfInitiationMethod := js "11";
  merchantAccountInfo := js "0018com.konai.konacard0115410790020044601";
  merchantId := js "com.konai.konacard";
  merchantCategoryCode := js "3001";
  transactionCurrency := js "410";
  countryCode := js "KR";
  merchantName := js "KONA";
  merchantCity := js "KONA";
  additionalData := {|
    ad00 := js "KO";
    ad01 := [0xD14C; 0xC2A4; 0xD2B8];
    ad02 := [0xACBD; 0xAE30; 0xB3C4]
  |};
  crc := js "A26F"
|}.

(** ** The encoder *)

Definition getEmvoLength (str : jsstring) : Z := js_length str.

Definition formatLength (length : Z) : jsstring :=
  padStart 2 48 (toString 10 length).

Definition createTLV (tag value : jsstring) : jsstring :=
  let length := getEmvoLength value in
  tag ++ formatLength length ++ value.

Definition generateMerchantAccountInfo (merchantId : jsstring) : jsstring :=
  let merchantIdTLV := createTLV (js "00") merchantId in
  let fixedValueTLV :=
    createTLV (js "01") (js_or merchantId (js "410790020044601")) in
  merchantIdTLV ++ fixedValueTLV.

Definition generateAdditionalDataTLV (additionalData : AdditionalData)
  : jsstring :=
  let subTLV00 := createTLV (js "00") (ad00 additionalData) in
  let subTLV01 := createTLV (js "01") (ad01 additionalData) in
  let subTLV02 := createTLV (js "02") (ad02 additionalData) in
  subTLV00 ++ subTLV01 ++ subTLV02.

(** The inner [for (j = 0; j < 8; j++)] body of [calculateCRC16]. *)
Definition crc_round (crc : Z) : Z :=
  let crc' :=
    if JS.and crc 0x8000 =? 0
    then JS.shl crc 1
    else JS.xor (JS.shl crc 1) 0x1021 in
  JS.and crc' 0xFFFF.

(** The outer loop body: [crc ^= bytes[i] << 8] and eight rounds. *)
Definition crc_byte (crc byte : Z) : Z :=
  Nat.iter 8 crc_round (JS.xor crc (JS.shl byte 8)).

(** The accumulator after the loop over [bytes], started at [0xFFFF]. *)
Definition crc16_bytes (bytes : list Z) : Z := fold_left crc_byte bytes 0xFFFF.

(** [crc.toString(16).toUpperCase().padStart(4, '0')] *)
Definition crc16_render (crc : Z) : jsstring :=
  padStart 4 48 (toUpperCase (toString 16 crc)).

Definition calculateCRC16 (data : jsstring) : jsstring :=
  crc16_render (crc16_bytes (TextEncoder_encode data)).


(** What [generateQrString] stores: [setQrString] and [setTlvs]. *)
Record Generated := mkGenerated {
  qrString : jsstring;
  tlvs : list TLVTag
}.

Definition leaf (tag value : jsstring) : TLVTag :=
  mkTLVTag tag value (getEmvoLength value) None.

Definition generateQrString (formData : EmvoQrData) : Generated :=
  let merchantAccountInfo :=
    generateMerchantAccountInfo (merchantId formData) in
  let additionalDataValue :=
    generateAdditionalDataTLV (additionalData formData) in
  let qrWithoutCrc := [] in
  let qrWithoutCrc :=
    qrWithoutCrc ++ createTLV (js "00") (payloadFormatIndicator formData) in
  let qrWithoutCrc :=
    qrWithoutCrc ++ createTLV (js "01") (pointOfInitiationMethod formData) in
  let qrWithoutCrc := qrWithoutCrc ++ createTLV (js "44") merchantAccountInfo in
  let qrWithoutCrc :=
    qrWithoutCrc ++ createTLV (js "52") (merchantCategoryCode formData) in
  let qrWithoutCrc :=
    qrWithoutCrc ++ createTLV (js "53") (transactionCurrency formData) in
  let qrWithoutCrc :=
    qrWithoutCrc ++ createTLV (js "58") (countryCode formData) in
  let qrWithoutCrc :=
    qrWithoutCrc ++ createTLV (js "59") (merchantName formData) in
  let qrWithoutCrc :=
    qrWithoutCrc ++ createTLV (js "60") (merchantCity formData) in
  let qrWithoutCrc := qrWithoutCrc ++ createTLV (js "64") additionalDataValue in
  let crcInput := qrWithoutCrc ++ js "6304" in
  let calculatedCrc := calculateCRC16 crcInput in
  let finalQrString := qrWithoutCrc ++ createTLV (js "63") calculatedCrc in
  let newTlvs := [
    leaf (js "00") (payloadFormatIndicator formData);
    leaf (js "01") (pointOfInitiationMethod formData);
    mkTLVTag (js "44") merchantAccountInfo (getEmvoLength merchantAccountInfo)
      (Some [ leaf (js "00") (merchantId formData);
              leaf (js "01") (js "410790020044601") ]);
    leaf (js "52") (merchantCategoryCode formData);
    leaf (js "53") (transactionCurrency formData);
    leaf (js "58") (countryCode formData);
    leaf (js "59") (merchantName formData);
    leaf (js "60") (merchantCity formData);
    mkTLVTag (js "64") additionalDataValue (getEmvoLength additionalDataValue)
      (Some [ leaf (js "00") (ad00 (additionalData formData));
              leaf (js "01") (ad01 (additionalData formData));
              leaf (js "02") (ad02 (additionalData formData)) ]);
    leaf (js "63") calculatedCrc ] in
  {| qrString := finalQrString; tlvs := newTlvs |}.

(** The encoder proper: the string handed to the QR renderer. *)
Definition encode (formData : EmvoQrData) : jsstring :=
  qrString (generateQrString formData).

(** ** The decoder *)

(** The object returned by [parseTLV]; its [length] key is [tlvLength]
    here, [length] being the length of lists. *)
Record ParsedTLV := mkParsedTLV {
  tag : jsstring;
  tlvLength : Z;
  value : jsstring;
  nextIndex : Z
}.

(** [None] is the [null] result. *)
Definition parseTLV (data : jsstring) (startIndex : Z) : option ParsedTLV :=
  if startIndex >=? js_length data - 3 then None
  else
    let tag := substring data startIndex (startIndex + 2) in
    let lengthStr := substring data (startIndex + 2) (startIndex + 4) in
    match parseInt lengthStr with
    | None => None
    | Some length =>
        if startIndex + 4 + length >? js_length data then None
        else
          let value :=
            substring data (startIndex + 4) (startIndex + 4 + length) in
          let nextIndex := startIndex + 4 + length in
          Some (mkParsedTLV tag length value nextIndex)
    end.

(** The loop shared by [parseSubTLVs] and [parseQrString]:
    [while (index < data.length) { parsed = parseTLV(data, index);
       if (!parsed) break;  body;  index = parsed.nextIndex; }].
    The loop need not terminate, so it is run with [fuel]: the result is
    [None] when the loop is still running after [fuel] iterations, or when
    the body itself does not finish. *)
Fixpoint tlv_while {A : Type} (body : A -> ParsedTLV -> option A)
    (fuel : nat) (data : jsstring) (index : Z) (acc : A) : option A :=
  match fuel with
  | O => None
  | S fuel' =>
      if index <? js_length data then
        match parseTLV data index with
        | None => Some acc
        | Some parsed =>
            match body acc parsed with
            | None => None
            | Some acc' => tlv_while body fuel' data (nextIndex parsed) acc'
            end
        end
      else Some acc
  end.

(** [subTlvs[parsed.tag] = parsed.value] *)
Definition subTlvs_body (subTlvs : gmap jsstring jsstring) (parsed : ParsedTLV)
  : option (gmap jsstring jsstring) :=
  Some (<[tag parsed := value parsed]> subTlvs).

Definition parseSubTLVs (fuel : nat) (data : jsstring)
  : option (gmap jsstring jsstring) :=
  tlv_while subTlvs_body fuel data 0 ∅.

(** [Partial<EmvoQrData>]: every key may be absent. *)
Record PartialEmvoQrData := mkPartial {
  p_payloadFormatIndicator : option jsstring;
  p_pointOfInitiationMethod : option jsstring;
  p_merchantAccountInfo : option jsstring;
  p_merchantId : option jsstring;
  p_merchantCategoryCode : option jsstring;
  p_transactionCurrency : option jsstring;
  p_countryCode : option jsstring;
  p_merchantName : option jsstring;
  p_merchantCity : option jsstring;
  p_additionalData : option AdditionalData;
  p_crc : option jsstring
}.

(** [{ additionalData: { "00": "", "01": "", "02": "" } }] *)
Definition initialParsedData : PartialEmvoQrData :=
  mkPartial None None None None None None None None None
    (Some (mkAdditionalData [] [] [])) None.

Section PartialUpdates.
Variable pd : PartialEmvoQrData.

Definition set_payloadFormatIndicator (v : jsstring) :=
  mkPartial (Some v) (p_pointOfInitiationMethod pd)
    (p_merchantAccountInfo pd) (p_merchantId pd)
    (p_merchantCategoryCode pd) (p_transactionCurrency pd)
    (p_countryCode pd) (p_merchantName pd) (p_merchantCity pd)
    (p_additionalData pd) (p_crc pd).

Definition set_pointOfInitiationMethod (v : jsstring) :=
  mkPartial (p_payloadFormatIndicator pd) (Some v)
    (p_merchantAccountInfo pd) (p_merchantId pd)
    (p_merchantCategoryCode pd) (p_transactionCurrency pd)
    (p_countryCode pd) (p_merchantName pd) (p_merchantCity pd)
    (p_additionalData pd) (p_crc pd).

(** Tag 44 assigns both [merchantAccountInfo] and [merchantId]. *)
Definition set_merchantAccount (info id : jsstring) :=
  mkPartial (p_payloadFormatIndicator pd) (p_pointOfInitiationMethod pd)
    (Some info) (Some id)
    (p_merchantCategoryCode pd) (p_transactionCurrency pd)
    (p_countryCode pd) (p_merchantName pd) (p_merchantCity pd)
    (p_additionalData pd) (p_crc pd).

Definition set_merchantCategoryCode (v : jsstring) :=
  mkPartial (p_payloadFormatIndicator pd) (p_pointOfInitiationMethod pd)
    (p_merchantAccountInfo pd) (p_merchantId pd)
    (Some v) (p_transactionCurrency pd)
    (p_countryCode pd) (p_merchantName pd) (p_merchantCity pd)
    (p_additionalData pd) (p_crc pd).

Definition set_transactionCurrency (v : jsstring) :=
  mkPartial (p_payloadFormatIndicator pd) (p_pointOfInitiationMethod pd)
    (p_merchantAccountInfo pd) (p_merchantId pd)
    (p_merchantCategoryCode pd) (Some v)
    (p_countryCode pd) (p_merchantName pd) (p_merchantCity pd)
    (p_additionalData pd) (p_crc pd).

Definition set_countryCode (v : jsstring) :=
  mkPartial (p_payloadFormatIndicator pd) (p_pointOfInitiationMethod pd)
    (p_merchantAccountInfo pd) (p_merchantId pd)
    (p_merchantCategoryCode pd) (p_transactionCurrency pd)
    (Some v) (p_merchantName pd) (p_merchantCity pd)
    (p_additionalData pd) (p_crc pd).

Definition set_merchantName (v : jsstring) :=
  mkPartial (p_payloadFormatIndicator pd) (p_pointOfInitiationMethod pd)
    (p_merchantAccountInfo pd) (p_merchantId pd)
    (p_merchantCategoryCode pd) (p_transactionCurrency pd)
    (p_countryCode pd) (Some v) (p_merchantCity pd)
    (p_additionalData pd) (p_crc pd).

Definition set_merchantCity (v : jsstring) :=
  mkPartial (p_payloadFormatIndicator pd) (p_pointOfInitiationMethod pd)
    (p_merchantAccountInfo pd) (p_merchantId pd)
    (p_merchantCategoryCode pd) (p_transactionCurrency pd)
    (p_countryCode pd) (p_merchantName pd) (Some v)
    (p_additionalData pd) (p_crc pd).

Definition set_additionalData (v : AdditionalData) :=
  mkPartial (p_payloadFormatIndicator pd) (p_pointOfInitiationMethod pd)
    (p_merchantAccountInfo pd) (p_merchantId pd)
    (p_merchantCategoryCode pd) (p_transactionCurrency pd)
    (p_countryCode pd) (p_merchantName pd) (p_merchantCity pd)
    (Some v) (p_crc pd).

Definition set_crc (v : jsstring) :=
  mkPartial (p_payloadFormatIndicator pd) (p_pointOfInitiationMethod pd)
    (p_merchantAccountInfo pd) (p_merchantId pd)
    (p_merchantCategoryCode pd) (p_transactionCurrency pd)
    (p_countryCode pd) (p_merchantName pd) (p_merchantCity pd)
    (p_additionalData pd) (Some v).
End PartialUpdates.

(** The [switch (parsed.tag)] of [parseQrString]; there is no [default]
    case.  The two composite tags run [parseSubTLVs], which may not finish:
    it gets [subfuel] iterations. *)
Definition qr_body (subfuel : nat) (parsedData : PartialEmvoQrData)
    (parsed : ParsedTLV) : option PartialEmvoQrData :=
  let t := tag parsed in
  if decide (t = js "00") then
    Some (set_payloadFormatIndicator parsedData (value parsed))
  else if decide (t = js "01") then
    Some (set_pointOfInitiationMethod parsedData (value parsed))
  else if decide (t = js "44") then
    merchantSubTlvs ← parseSubTLVs subfuel (value parsed);
    Some (set_merchantAccount parsedData (value parsed)
            (js_or_undef (merchantSubTlvs !! js "00") []))
  else if decide (t = js "52") then
    Some (set_merchantCategoryCode parsedData (value parsed))
  else if decide (t = js "53") then
    Some (set_transactionCurrency parsedData (value parsed))
  else if decide (t = js "58") then
    Some (set_countryCode parsedData (value parsed))
  else if decide (t = js "59") then
    Some (set_merchantName parsedData (value parsed))
  else if decide (t = js "60") then
    Some (set_merchantCity parsedData (value parsed))
  else if decide (t = js "64") then
    additionalSubTlvs ← parseSubTLVs subfuel (value parsed);
    Some (set_additionalData parsedData
            (mkAdditionalData
               (js_or_undef (additionalSubTlvs !! js "00") [])
               (js_or_undef (additionalSubTlvs !! js "01") [])
               (js_or_undef (additionalSubTlvs !! js "02") [])))
  else if decide (t = js "63") then
    Some (set_crc parsedData (value parsed))
  else Some parsedData.

(** [{ ...prev, ...parsedData,
       additionalData: parsedData.additionalData || prev.additionalData }] *)
Definition mergeFormData (prev : EmvoQrData) (parsedData : PartialEmvoQrData)
  : EmvoQrData := {|
  payloadFormatIndicator :=
    default (payloadFormatIndicator prev) (p_payloadFormatIndicator parsedData);
  pointOfInitiationMethod :=
    default (pointOfInitiationMethod prev)
      (p_pointOfInitiationMethod parsedData);
  merchantAccountInfo :=
    default (merchantAccountInfo prev) (p_merchantAccountInfo parsedData);
  merchantId := default (merchantId prev) (p_merchantId parsedData);
  merchantCategoryCode :=
    default (merchantCategoryCode prev) (p_merchantCategoryCode parsedData);
  transactionCurrency :=
    default (transactionCurrency prev) (p_transactionCurrency parsedData);
  countryCode := default (countryCode prev) (p_countryCode parsedData);
  merchantName := default (merchantName prev) (p_merchantName parsedData);
  merchantCity := default (merchantCity prev) (p_merchantCity parsedData);
  additionalData := default (additionalData prev) (p_additionalData parsedData);
  crc := default (crc prev) (p_crc parsedData)
|}.

(** The top-level loop of [parseQrString] from [index = 0]. *)
Definition parseQrData (fuel : nat) (qrStringToParse : jsstring)
  : option PartialEmvoQrData :=
  tlv_while (qr_body fuel) fuel qrStringToParse 0 initialParsedData.

(** [parseQrString]: the form data after [setFormData], given the form data
    [prev] before the call.  No operation of the [try] block throws on
    strings, so the [catch] branch is never taken; the only other outcome is
    a loop that does not finish ([None] for every [fuel]). *)
Definition parseQrString (fuel : nat) (prev : EmvoQrData)
    (qrStringToParse : jsstring) : option EmvoQrData :=
  mergeFormData prev <$> parseQrData fuel qrStringToParse.

(** The successful [parseTLV] results met by a walk from [index], in order:
    the trace of the loop, independent of the loop body. *)
Fixpoint tlv_trace (fuel : nat) (data : jsstring) (index : Z)
  : option (list ParsedTLV) :=
  match fuel with
  | O => None
  | S fuel' =>
      if index <? js_length data then
        match parseTLV data index with
        | None => Some []
        | Some parsed =>
            (parsed ::.) <$> tlv_trace fuel' data (nextIndex parsed)
        end
      else Some []
  end.

(** ** The specification's wording, for comparison with the code

    These definitions follow the prose of the specification, not the source;
    the theorems below compare them with the definitions above. *)

Module Spec.

Inductive EncodeError := LengthOverflow.
Inductive ParseError := MalformedLength | TruncatedValue.

(** zero_pad(len, 2) for 0 <= len <= 99 *)
Definition zero_pad2 (len : Z) : jsstring := [48 + len / 10; 48 + len mod 10].

(** "computes len = character_count(value); fails with LengthOverflow if
    len > 99; returns tag + zero_pad(len, 2) + value" *)
Definition encodeTLV (tag value : jsstring) : EncodeError + jsstring :=
  let len := js_length value in
  if len >? 99 then inl LengthOverflow
  else inr (tag ++ zero_pad2 len ++ value).

(** "if the top bit of the accumulator is set, shift left 1 and XOR with
    polynomial 0x1021, masking to 16 bits; otherwise shift left 1, masking
    to 16 bits" *)
Definition round (acc : Z) : Z :=
  if Z.testbit acc 15
  then Z.lxor (Z.shiftl acc 1) 0x1021 mod 2 ^ 16
  else Z.shiftl acc 1 mod 2 ^ 16.

(** "XOR the octet, shifted left 8 bits, into the high byte of the
    accumulator; then repeat 8 times" *)
Definition step (acc octet : Z) : Z :=
  Nat.iter 8 round (Z.lxor acc (Z.shiftl octet 8)).

(** "initialize accumulator to 0xFFFF. For each input octet: ..." *)
Definition crc16 (octets : list Z) : Z := fold_left step octets 0xFFFF.

Definition hexDigit (d : Z) : Z := if d <? 10 then 48 + d else 55 + d.

(** "rendered as 4 uppercase hexadecimal digits, zero-padded" *)
Definition hex4 (n : Z) : jsstring :=
  [hexDigit (n / 4096 mod 16); hexDigit (n / 256 mod 16);
   hexDigit (n / 16 mod 16); hexDigit (n mod 16)].

Definition checksum (octets : list Z) : jsstring := hex4 (crc16 octets).

Definition isDecimalDigit (c : Z) : bool := (48 <=? c) && (c <=? 57).

(** "reads exactly 2 characters as tag, the next 2 as a decimal length
    (fails with MalformedLength if non-numeric), then reads exactly length
    characters as value (fails with TruncatedValue if fewer than length
    characters remain)"; the input is the slice still to be read. *)
Definition decodeOne (input : jsstring)
  : ParseError + (jsstring * jsstring * jsstring) :=
  match input with
  | t1 :: t2 :: d1 :: d2 :: rest =>
      if isDecimalDigit d1 && isDecimalDigit d2 then
        let len := Z.to_nat (10 * (d1 - 48) + (d2 - 48)) in
        if (Datatypes.length rest <? len)%nat then inl TruncatedValue
        else inr ([t1; t2], take len rest, drop len rest)
      else inl MalformedLength
  | _ => inl MalformedLength
  end.

(** "repeatedly invokes decodeOne from offset 0 until the remaining slice
    is empty or too short to contain a valid header (fewer than 4
    characters remain), at which point decoding stops silently".  Every
    step consumes at least four characters, so the length of the input
    bounds the number of steps. *)
Fixpoint decodeSequence_from (steps : nat) (input : jsstring)
  : ParseError + list (jsstring * jsstring) :=
  match steps with
  | O => inr []
  | S steps' =>
      if (Datatypes.length input <? 4)%nat then inr []
      else
        match decodeOne input with
        | inl e => inl e
        | inr (t, v, rest) =>
            match decodeSequence_from steps' rest with
            | inl e => inl e
            | inr l => inr ((t, v) :: l)
            end
        end
  end.

Definition decodeSequence (input : jsstring)
  : ParseError + list (jsstring * jsstring) :=
  decodeSequence_from (Datatypes.length input) input.

End Spec.

(** ** Well-formed TLV sequences *)

(** The concatenation of the TLVs of a list of (tag, value) pairs. *)
Definition encodeTLVs (l : list (jsstring * jsstring)) : jsstring :=
  concat (map (fun tv => createTLV tv.1 tv.2) l).

(** A TLV whose header is a two-character tag and a two-digit length. *)
Definition wf_tlv (tv : jsstring * jsstring) : Prop :=
  Datatypes.length tv.1 = 2%nat /\ js_length tv.2 <= 99.

Definition is_composite (t : jsstring) : Prop := t = js "44" \/ t = js "64".

(** A well-formed top-level TLV: the value of a composite tag is itself a
    sequence of well-formed TLVs. *)
Definition wf_top (tv : jsstring * jsstring) : Prop :=
  wf_tlv tv /\
  (is_composite tv.1 ->
   exists sub, Forall wf_tlv sub /\ tv.2 = encodeTLVs sub).

Definition knownTags : list jsstring :=
  [js "00"; js "01"; js "44"; js "52"; js "53"; js "58"; js "59"; js "60";
   js "64"; js "63"].

(** The object [parseTLV] returns for the TLV [tv] found at [index]. *)
Definition parsed_at (index : Z) (tv : jsstring * jsstring) : ParsedTLV :=
  mkParsedTLV tv.1 (js_length tv.2) tv.2 (index + 4 + js_length tv.2).

(** The trace of a walk over the encoding of [l] that starts at [index]. *)
Fixpoint parsed_list (index : Z) (l : list (jsstring * jsstring))
  : list ParsedTLV :=
  match l with
  | [] => []
  | tv :: r => parsed_at index tv :: parsed_list (index + 4 + js_length tv.2) r
  end.

(** The loop body applied along a trace. *)
Fixpoint run_parsed {A : Type} (body : A -> ParsedTLV -> option A)
    (tr : list ParsedTLV) (acc : A) : option A :=
  match tr with
  | [] => Some acc
  | p :: r =>
      match body acc p with
      | None => None
      | Some acc' => run_parsed body r acc'
      end
  end.

(** The tags met by a walk. *)
Definition tags (tr : list ParsedTLV) : list jsstring := map tag tr.

(** An uppercase hexadecimal digit: 0-9 or A-F. *)
Definition isUpperHexDigit (c : Z) : Prop :=
  48 <= c <= 57 \/ 65 <= c <= 70.

(** An octet. *)
Definition isOctet (b : Z) : Prop := 0 <= b < 256.

(** A UTF-16 code unit. *)
Definition isCodeUnit (c : Z) : Prop := 0 <= c < 65536.

(** The encoding of the sub-tags displayed under a node of the TLV tree. *)
Definition encodeSubTags (node : TLVTag) : jsstring :=
  match subTags node with
  | Some l => concat (map (fun c => createTLV (tlv_tag c) (tlv_value c)) l)
  | None => []
  end.

(** The top-level (tag, value) pairs of the encoded string, in order. *)
Definition topLevelTLVs (r : EmvoQrData) : list (jsstring * jsstring) :=
  [ (js "00", payloadFormatIndicator r);
    (js "01", pointOfInitiationMethod r);
    (js "44", generateMerchantAccountInfo (merchantId r));
    (js "52", merchantCategoryCode r);
    (js "53", transactionCurrency r);
    (js "58", countryCode r);
    (js "59", merchantName r);
    (js "60", merchantCity r);
    (js "64", generateAdditionalDataTLV (additionalData r));
    (js "63", calculateCRC16
                (encodeTLVs
                   [ (js "00", payloadFormatIndicator r);
                     (js "01", pointOfInitiationMethod r);
                     (js "44", generateMerchantAccountInfo (merchantId r));
                     (js "52", merchantCategoryCode r);
                     (js "53", transactionCurrency r);
                     (js "58", countryCode r);
                     (js "59", merchantName r);
                     (js "60", merchantCity r);
                     (js "64", generateAdditionalDataTLV (additionalData r)) ]
                 ++ js "6304")) ].

(** Every string field of the Record has at most 99 characters. *)
Definition fields_within_99 (r : EmvoQrData) : Prop :=
  Forall (fun s => js_length s <= 99)
    [ payloadFormatIndicator r; pointOfInitiationMethod r;
      merchantAccountInfo r; merchantId r; merchantCategoryCode r;
      transactionCurrency r; countryCode r; merchantName r; merchantCity r;
      ad00 (additionalData r); ad01 (additionalData r);
      ad02 (additionalData r); crc r ].

(** The two composite values, as the encoder builds them, have at most 99
    characters. *)
Definition composites_within_99 (r : EmvoQrData) : Prop :=
  js_length (generateMerchantAccountInfo (merchantId r)) <= 99 /\
  js_length (generateAdditionalDataTLV (additionalData r)) <= 99.

(** Every field of the Record, as [generateQrString] encodes it, has at most
    99 characters: the eleven strings it reads from the form data, and the
    two composite fields, which are the values it writes under the tags 44
    and 64.  The keys [merchantAccountInfo] and [crc] of the form data are
    not measured: [generateQrString] does not read them. *)
Definition record_fields_within_99 (r : EmvoQrData) : Prop :=
  Forall (fun s => js_length s <= 99)
    [ payloadFormatIndicator r; pointOfInitiationMethod r;
      generateMerchantAccountInfo (merchantId r); merchantId r;
      merchantCategoryCode r; transactionCurrency r; countryCode r;
      merchantName r; merchantCity r;
      generateAdditionalDataTLV (additionalData r);
      ad00 (additionalData r); ad01 (additionalData r);
      ad02 (additionalData r) ].

(** ** Editing the form *)

(** [keyof EmvoQrData] *)
Inductive EmvoQrField :=
  | F_payloadFormatIndicator | F_pointOfInitiationMethod
  | F_merchantAccountInfo | F_merchantId | F_merchantCategoryCode
  | F_transactionCurrency | F_countryCode | F_merchantName | F_merchantCity
  | F_additionalData | F_crc.

(** [handleInputChange]: the form data after [setFormData], given the form
    data [prev] before; the key [additionalData] returns early. *)
Definition handleInputChange (field : EmvoQrField) (value : jsstring)
    (prev : EmvoQrData) : EmvoQrData :=
  match field with
  | F_additionalData => prev
  | F_payloadFormatIndicator =>
      mkEmvoQrData value (pointOfInitiationMethod prev)
        (merchantAccountInfo prev) (merchantId prev)
        (merchantCategoryCode prev) (transactionCurrency prev)
        (countryCode prev) (merchantName prev) (merchantCity prev)
        (additionalData prev) (crc prev)
  | F_pointOfInitiationMethod =>
      mkEmvoQrData (payloadFormatIndicator prev) value
        (merchantAccountInfo prev) (merchantId prev)
        (merchantCategoryCode prev) (transactionCurrency prev)
        (countryCode prev) (merchantName prev) (merchantCity prev)
        (additionalData prev) (crc prev)
  | F_merchantAccountInfo =>
      mkEmvoQrData (payloadFormatIndicator prev) (pointOfInitiationMethod prev)
        value (merchantId prev)
        (merchantCategoryCode prev) (transactionCurrency prev)
        (countryCode prev) (merchantName prev) (merchantCity prev)
        (additionalData prev) (crc prev)
  | F_merchantId =>
      mkEmvoQrData (payloadFormatIndicator prev) (pointOfInitiationMethod prev)
        (merchantAccountInfo prev) value
        (merchantCategoryCode prev) (transactionCurrency prev)
        (countryCode prev) (merchantName prev) (merchantCity prev)
        (additionalData prev) (crc prev)
  | F_merchantCategoryCode =>
      mkEmvoQrData (payloadFormatIndicator prev) (pointOfInitiationMethod prev)
        (merchantAccountInfo prev) (merchantId prev)
        value (transactionCurrency prev)
        (countryCode prev) (merchantName prev) (merchantCity prev)
        (additionalData prev) (crc prev)
  | F_transactionCurrency =>
      mkEmvoQrData (payloadFormatIndicator prev) (pointOfInitiationMethod prev)
        (merchantAccountInfo prev) (merchantId prev)
        (merchantCategoryCode prev) value
        (countryCode prev) (merchantName prev) (merchantCity prev)
        (additionalData prev) (crc prev)
  | F_countryCode =>
      mkEmvoQrData (payloadFormatIndicator prev) (pointOfInitiationMethod prev)
        (merchantAccountInfo prev) (merchantId prev)
        (merchantCategoryCode prev) (transactionCurrency prev)
        value (merchantName prev) (merchantCity prev)
        (additionalData prev) (crc prev)
  | F_merchantName =>
      mkEmvoQrData (payloadFormatIndicator prev) (pointOfInitiationMethod prev)
        (merchantAccountInfo prev) (merchantId prev)
        (merchantCategoryCode prev) (transactionCurrency prev)
        (countryCode prev) value (merchantCity prev)
        (additionalData prev) (crc prev)
  | F_merchantCity =>
      mkEmvoQrData (payloadFormatIndicator prev) (pointOfInitiationMethod prev)
        (merchantAccountInfo prev) (merchantId prev)
        (merchantCategoryCode prev) (transactionCurrency prev)
        (countryCode prev) (merchantName prev) value
        (additionalData prev) (crc prev)
  | F_crc =>
      mkEmvoQrData (payloadFormatIndicator prev) (pointOfInitiationMethod prev)
        (merchantAccountInfo prev) (merchantId prev)
        (merchantCategoryCode prev) (transactionCurrency prev)
        (countryCode prev) (merchantName prev) (merchantCity prev)
        (additionalData prev) value
  end.

(** [keyof AdditionalData] *)
Inductive AdditionalDataKey := K00 | K01 | K02.

(** [handleAdditionalDataChange] *)
Definition handleAdditionalDataChange (key : AdditionalDataKey)
    (value : jsstring) (prev : EmvoQrData) : EmvoQrData :=
  let ad := additionalData prev in
  let ad' :=
    match key with
    | K00 => mkAdditionalData value (ad01 ad) (ad02 ad)
    | K01 => mkAdditionalData (ad00 ad) value (ad02 ad)
    | K02 => mkAdditionalData (ad00 ad) (ad01 ad) value
    end in
  mkEmvoQrData (payloadFormatIndicator prev) (pointOfInitiationMethod prev)
    (merchantAccountInfo prev) (merchantId prev)
    (merchantCategoryCode prev) (transactionCurrency prev)
    (countryCode prev) (merchantName prev) (merchantCity prev)
    ad' (crc prev).

(** [v] is the value of the last TLV of [l] with tag [t]. *)
Definition last_value (t : jsstring) (l : list (jsstring * jsstring))
    (v : jsstring) : Prop :=
  exists l1 l2, l = l1 ++ (t, v) :: l2 /\ t ∉ map fst l2.

(** [v] is the value of the last TLV with tag [t] met by a walk. *)
Definition last_parsed (t : jsstring) (tr : list ParsedTLV) (v : jsstring)
    : Prop :=
  exists tr1 p tr2,
    tr = tr1 ++ p :: tr2 /\ tag p = t /\ value p = v /\ t ∉ tags tr2.

(** The field [f], assigned under tag [t], of the Record [r] returned over
    the previous Record [prev] after the walk [tr]: the previous value when
    the walk met no TLV with the tag, else the value of the last one. *)
Definition merged (t : jsstring) (f : EmvoQrData -> jsstring)
    (tr : list ParsedTLV) (prev r : EmvoQrData) : Prop :=
  (t ∉ tags tr -> f r = f prev) /\
  (forall v, last_parsed t tr v -> f r = v).

(** The inputs on which the loops of [parseQrString] are known to end: a
    string without a minus sign (no length field is negative), and a
    well-formed top-level sequence followed by at most three characters
    (whose values may hold any character). *)
Definition terminating_input (data : jsstring) : Prop :=
  (45 ∉ data) \/
  (exists l frag,
     data = encodeTLVs l ++ frag /\ Forall wf_top l /\ js_length frag <= 3).

(** The re-encoding of the top level of the displayed TLV tree. *)
Definition encodeTree (nodes : list TLVTag) : jsstring :=
  concat (map (fun n => createTLV (tlv_tag n) (tlv_value n)) nodes).

(** ** The scan and frame histories ([ScannerPage], [NativeBarcodeScanner]) *)

Module Scanner.

Section History.
Context {A : Type}.

(** [prev => [scanData, ...prev.slice(0, 9)]], the updater that [handleScan]
    and [handleFileUpload] pass to [setScanHistory] once they record a
    scan. *)
Definition pushScan (scanData : A) (prev : list A) : list A :=
  scanData :: take 9 prev.

(** [setProcessedFrames(prev => { const updated = [newFrame, ...prev];
    return updated.slice(0, 10); })], in [saveProcessedFrame]. *)
Definition pushFrame (newFrame : A) (prev : list A) : list A :=
  let updated := newFrame :: prev in
  take 10 updated.

(** The history after the updater ran for each element of [scans], oldest
    first. *)
Definition afterScans (scans : list A) (history : list A) : list A :=
  fold_left (fun h scanData => pushScan scanData h) scans history.

End History.

(** ['camera' | 'file'] *)
Inductive Source := camera | file.

Section Scans.
Variables Time Raw : Type.

(** [ScanResult], with the [rawResult] that [handleScan] stores in it. *)
Record ScanResult := mkScanResult {
  text : jsstring;
  timestamp : Time;
  source : Source;
  rawResult : option Raw
}.

(** [handleScan(result, rawResult)] on the scan history, [now] being the
    [new Date()] it takes: [if (result)] records nothing for the empty
    string. *)
Definition handleScan (result : jsstring) (raw : Raw) (now : Time)
    (scanHistory : list ScanResult) : list ScanResult :=
  match result with
  | [] => scanHistory
  | _ :: _ =>
      let scanData := mkScanResult result now camera (Some raw) in
      pushScan scanData scanHistory
  end.

(** The [img.onload] callback of [handleFileUpload] on the scan history,
    for a file named [fileName]: [iso] is the [new Date().toISOString()] of
    the mock result and [now] the [new Date()] of the time stamp.  The
    callback has no guard. *)
Definition handleFileUpload (fileName iso : jsstring) (now : Time)
    (scanHistory : list ScanResult) : list ScanResult :=
  let mockResult :=
    js "File upload scan: " ++ fileName ++ js " (" ++ iso ++ js ")" in
  let scanData := mkScanResult mockResult now file None in
  pushScan scanData scanHistory.

(** What reaches the scan history: a result delivered by the camera
    scanner, or an uploaded image that finished loading. *)
Inductive ScanEvent :=
  | CameraScan (result : jsstring) (raw : Raw) (now : Time)
  | FileScan (fileName iso : jsstring) (now : Time).

Definition handleEvent (scanHistory : list ScanResult) (e : ScanEvent)
    : list ScanResult :=
  match e with
  | CameraScan result raw now => handleScan result raw now scanHistory
  | FileScan fileName iso now => handleFileUpload fileName iso now scanHistory
  end.

(** The scan history after the events of [events] arrived, oldest first. *)
Definition afterEvents (events : list ScanEvent)
    (scanHistory : list ScanResult) : list ScanResult :=
  fold_left handleEvent events scanHistory.

(** The entry an event is expected to leave in the history: none for a
    camera result with an empty text. *)
Definition recorded (e : ScanEvent) : option ScanResult :=
  match e with
  | CameraScan result raw now =>
      if bool_decide (result = [])
      then None
      else Some (mkScanResult result now camera (Some raw))
  | FileScan fileName iso now =>
      Some (mkScanResult
              (js "File upload scan: " ++ fileName ++ js " (" ++ iso ++ js ")")
              now file None)
  end.

End Scans.

Arguments mkScanResult {Time Raw}.
Arguments text {Time Raw}.
Arguments timestamp {Time Raw}.
Arguments source {Time Raw}.
Arguments rawResult {Time Raw}.
Arguments handleScan {Time Raw}.
Arguments handleFileUpload {Time Raw}.
Arguments CameraScan {Time Raw}.
Arguments FileScan {Time Raw}.
Arguments handleEvent {Time Raw}.
Arguments afterEvents {Time Raw}.
Arguments recorded {Time Raw}.

End Scanner.

(** ** The URL navigator ([UrlNavigator]) *)

Module UrlNavigator.

(** [s.startsWith(prefix)] *)
Definition startsWith (s prefix : jsstring) : bool :=
  bool_decide (take (length prefix) s = prefix).

(** [s.trim()]: white space and line terminators removed at both ends. *)
Definition trim (s : jsstring) : jsstring :=
  reverse (trimStart (reverse (trimStart s))).

(** "Add protocol if missing", as [validateUrl] and [handleNavigate] both
    do. *)
Definition addProtocol (url : jsstring) : jsstring :=
  if startsWith url (js "http://") || startsWith url (js "https://")
  then url
  else js "https://" ++ url.

(** The state of the component: the text of the input and its validity. *)
Record State := mkState {
  url : jsstring;
  isValidUrl : bool
}.

Section WithURL.
(** Whether [new URL(s)] returns (instead of throwing). *)
Variable URL_accepts : jsstring -> bool.

Definition validateUrl (inputUrl : jsstring) : bool :=
  let urlToTest := addProtocol inputUrl in
  URL_accepts urlToTest.

Definition handleUrlChange (value : jsstring) (st : State) : State :=
  mkState value
    (match trim value with
     | [] => true
     | _ :: _ => validateUrl value
     end).

End WithURL.

Definition handleQuickLink (quickUrl : jsstring) (st : State) : State :=
  mkState quickUrl true.

(** [handleNavigate]: the string assigned to [window.location.href], or
    [None] when the handler returns early. *)
Definition handleNavigate (st : State) : option jsstring :=
  match trim (url st) with
  | [] => None
  | _ :: _ =>
      if negb (isValidUrl st) then None
      else Some (addProtocol (url st))
  end.

End UrlNavigator.

(** ** The message history ([MessageContext]) *)

Module MessageContext.

Section History.
Context {Payload Time : Type}.

Record MessageHistoryItem := mkItem {
  id : jsstring;
  timestamp : Time;
  payload : Payload;
  success : bool;
  target : option jsstring
}.

(** [addMessageToHistory]; [newId] is the result of [nanoid()] and [now]
    that of [new Date()]. *)
Definition addMessageToHistory (newId : jsstring) (now : Time)
    (payload : Payload) (success : bool) (target : option jsstring)
    (prev : list MessageHistoryItem) : list MessageHistoryItem :=
  let newHistoryItem := mkItem newId now payload success target in
  newHistoryItem :: prev.

Definition clearHistory (prev : list MessageHistoryItem)
  : list MessageHistoryItem := [].

(** [prev.filter(item => item.id !== id)] *)
Definition removeHistoryItem (id0 : jsstring)
    (prev : list MessageHistoryItem) : list MessageHistoryItem :=
  filter (fun item => id item <> id0) prev.

End History.

End MessageContext.

(** ** The native bridge ([bridgeUtils], [Editor]) *)

Module Bridge.

Inductive BridgeType := REACT_NATIVE | IOS | ANDROID | NONE.

(** A handler object injected by the native side, as the page sees it: the
    property is falsy, or it is set and its [postMessage] delivers the
    message, or it is set and calling its [postMessage] throws. *)
Inductive Handler := Absent | Delivers | Throws.

(** [window.webkit]: falsy; set with [messageHandlers] undefined or null; set
    with [messageHandlers] another falsy value; set with [messageHandlers]
    and its [jsMessageHandler] property. *)
Inductive Webkit :=
  | NoWebkit
  | NoMessageHandlers
  | FalsyMessageHandlers
  | MessageHandlers (jsMessageHandler : Handler).

Record Window := mkWindow {
  ReactNativeWebView : Handler;
  webkit : Webkit;
  androidBridge : Handler
}.

Definition truthy (h : Handler) : bool :=
  match h with
  | Absent => false
  | Delivers | Throws => true
  end.

Definition detectBridgeType (window : Window) : BridgeType :=
  if truthy (ReactNativeWebView window) then REACT_NATIVE
  else if
    match webkit window with
    | MessageHandlers h => truthy h
    | NoWebkit | NoMessageHandlers | FalsyMessageHandlers => false
    end
  then IOS
  else if truthy (androidBridge window) then ANDROID
  else NONE.

(** [h.postMessage(messageData); return true;] inside the [try]: [Some b]
    when the message was handed to bridge [b] and [true] is returned, [None]
    when the call threw and the [catch] returns [false]. *)
Definition postTo (h : Handler) (b : BridgeType) : option BridgeType :=
  match h with
  | Delivers => Some b
  | Absent | Throws => None
  end.

(** [sendNativeMessage]: [Some b] when it returns [true] after posting to
    bridge [b], [None] when it returns [false].  Reading [jsMessageHandler]
    of an undefined [messageHandlers] throws, which the [catch] turns into
    [false]. *)
Definition sendNativeMessage (window : Window) : option BridgeType :=
  let viaAndroid :=
    if truthy (androidBridge window)
    then postTo (androidBridge window) ANDROID
    else None in
  if truthy (ReactNativeWebView window)
  then postTo (ReactNativeWebView window) REACT_NATIVE
  else
    match webkit window with
    | NoWebkit => viaAndroid
    | NoMessageHandlers => None
    | FalsyMessageHandlers => viaAndroid
    | MessageHandlers h => if truthy h then postTo h IOS else viaAndroid
    end.

(** What a call of [closeModule] does: it replaces the location with the
    callback URL, or posts to a bridge, or sends nothing and returns
    [false], or throws because [new URL(callbackUrl)] throws. *)
Inductive Outcome :=
  | Redirected (callbackUrl : jsstring)
  | Posted (b : BridgeType)
  | NotSent
  | UrlError.

(** The value returned; [None] when the call throws. *)
Definition returned (o : Outcome) : option bool :=
  match o with
  | Redirected _ | Posted _ => Some true
  | NotSent => Some false
  | UrlError => None
  end.

Inductive Status := idle | success | error.

Section WithEnvironment.
(** Whether [new URL(s)] returns (instead of throwing). *)
Variable URL_accepts : jsstring -> bool.

(** [closeModule], given [sessionStorage.getItem("CALLBACK_URL")]. *)
Definition closeModule (callbackUrl : option jsstring) (window : Window)
  : Outcome :=
  match callbackUrl with
  | Some (c :: u) =>
      if URL_accepts (c :: u) then Redirected (c :: u) else UrlError
  | Some [] | None =>
      match sendNativeMessage window with
      | Some b => Posted b
      | None => NotSent
      end
  end.

Context {Payload : Type}.
(** [JSON.parse]; [None] when it throws. *)
Variable JSON_parse : jsstring -> option Payload.

(** What [handleSendMessage] of the editor sets, before the timers reset
    it: the status, the error text, and the entry added to the history. *)
Record SendResult := mkSendResult {
  status : Status;
  errorText : option jsstring;
  logged : option (Payload * bool)
}.

Definition handleSendMessage (jsonValue : jsstring)
    (callbackUrl : option jsstring) (window : Window) : SendResult :=
  let caught := mkSendResult error (Some (js "Invalid JSON format")) None in
  match JSON_parse jsonValue with
  | None => caught
  | Some payload =>
      match returned (closeModule callbackUrl window) with
      | None => caught
      | Some ok =>
          mkSendResult (if ok then success else error)
            (if ok then None
             else Some (js "Failed to send message to native app"))
            (Some (payload, ok))
      end
  end.

End WithEnvironment.

End Bridge.

(** ** Facts about the JavaScript primitives *)

Section Ranges.

(** A decidable property checked on every integer of [0, n). *)
Lemma check_range (P : Z -> Prop) `{!forall z, Decision (P z)} (n : Z) :
  bool_decide (Forall P (seqZ 0 n)) = true ->
  forall z, 0 <= z < n -> P z.
Proof.
  intros Hb z Hz. apply bool_decide_eq_true_1 in Hb.
  rewrite Forall_forall in Hb. apply Hb.
  apply elem_of_seqZ. lia.
Qed.

End Ranges.

Lemma formatLength_two_digits n :
  0 <= n <= 99 -> formatLength n = Spec.zero_pad2 n.
Proof.
  intros Hn.
  apply (check_range (fun z => formatLength z = Spec.zero_pad2 z) 100);
    [vm_compute; reflexivity | lia].
Qed.

Lemma parseInt_formatLength n :
  0 <= n <= 99 -> parseInt (formatLength n) = Some n.
Proof.
  intros Hn.
  apply (check_range (fun z => parseInt (formatLength z) = Some z) 100);
    [vm_compute; reflexivity | lia].
Qed.

(** Extra fuel does not change the digits: [n < 2 ^ f] steps suffice. *)
Lemma digits_of_fuel (f : nat) : forall f' radix n acc,
  2 <= radix -> 0 <= n < 2 ^ Z.of_nat (S f) -> (S f <= f')%nat ->
  digits_of f' radix n acc = digits_of (S f) radix n acc.
Proof.
  induction f as [|f IH]; intros f' radix n acc Hr Hn Hf;
    destruct f' as [|f']; try lia; cbn [digits_of].
  - assert (n / radix = 0) as -> by (apply Z.div_small; lia). reflexivity.
  - destruct (n / radix =? 0) eqn:E; [reflexivity|].
    apply IH; [lia| |lia].
    split; [apply Z.div_pos; lia|].
    apply Z.div_lt_upper_bound; [lia|].
    replace (Z.of_nat (S (S f))) with (Z.of_nat (S f) + 1) in Hn by lia.
    rewrite Z.pow_add_r in Hn by lia.
    assert (0 < 2 ^ Z.of_nat (S f)) by (apply Z.pow_pos_nonneg; lia).
    nia.
Qed.

(** [toString] of a number below [2 ^ k] can be run with [k] steps. *)
Lemma toString_fuel (k : nat) radix n :
  2 <= radix -> 0 <= n < 2 ^ Z.of_nat (S k) ->
  toString radix n = digits_of (S k) radix n [].
Proof.
  intros Hr Hn. unfold toString.
  destruct (n <? 0) eqn:E; [lia|].
  assert (Hlog : Z.log2 n < Z.of_nat (S k)).
  { destruct (decide (n = 0)) as [->|]; [cbn; lia|].
    apply Z.log2_lt_pow2; lia. }
  assert (Hown : 0 <= n < 2 ^ Z.of_nat (S (Z.to_nat (Z.log2 n)))).
  { destruct (decide (n = 0)) as [->|]; [cbn; lia|].
    pose proof (Z.log2_nonneg n).
    replace (Z.of_nat (S (Z.to_nat (Z.log2 n)))) with (Z.succ (Z.log2 n))
      by lia.
    pose proof (Z.log2_spec n). lia. }
  rewrite <- (digits_of_fuel (Z.to_nat (Z.log2 n)) (S k)); [reflexivity|lia|
    exact Hown|lia].
Qed.

Lemma upper_digitChar d :
  0 <= d < 16 -> toUpperCase [digitChar d] = [Spec.hexDigit d].
Proof.
  intros Hd.
  apply (check_range
           (fun z => toUpperCase [digitChar z] = [Spec.hexDigit z]) 16);
    [vm_compute; reflexivity | lia].
Qed.

Lemma toUpperCase_cons c c' s :
  toUpperCase (c :: c' :: s) = toUpperCase [c] ++ toUpperCase (c' :: s).
Proof. reflexivity. Qed.

Lemma crc16_render_hex4 n :
  0 <= n < 65536 -> crc16_render n = Spec.hex4 n.
Proof.
  intros Hn. unfold crc16_render, Spec.hex4.
  assert (toString 16 n = digits_of 16 16 n []) as ->.
  { apply toString_fuel; [lia|].
    replace (2 ^ Z.of_nat 16) with 65536 by reflexivity. lia. }
  assert (Hd : forall m, 0 <= m -> 0 <= m mod 16 < 16)
    by (intros; apply Z.mod_pos_bound; lia).
  assert (H1 : n / 16 / 16 = n / 256)
    by (rewrite Z.div_div by lia; reflexivity).
  assert (H2 : n / 256 / 16 = n / 4096)
    by (rewrite Z.div_div by lia; reflexivity).
  assert (H3 : n / 4096 / 16 = 0)
    by (rewrite Z.div_div by lia; apply Z.div_small; lia).
  assert (0 <= n / 16) by (apply Z.div_pos; lia).
  assert (0 <= n / 256) by (apply Z.div_pos; lia).
  assert (0 <= n / 4096) by (apply Z.div_pos; lia).
  cbn [digits_of].
  destruct (n / 16 =? 0) eqn:E1.
  { apply Z.eqb_eq in E1.
    assert (n / 256 = 0) as -> by (rewrite <- H1, E1; reflexivity).
    assert (n / 4096 = 0) as -> by (rewrite <- H2, <- H1, E1; reflexivity).
    rewrite E1, upper_digitChar by (apply Hd; lia). reflexivity. }
  rewrite H1. destruct (n / 256 =? 0) eqn:E2.
  { apply Z.eqb_eq in E2.
    assert (n / 4096 = 0) as -> by (rewrite <- H2, E2; reflexivity).
    rewrite E2, toUpperCase_cons, !upper_digitChar by (apply Hd; lia).
    reflexivity. }
  rewrite H2. destruct (n / 4096 =? 0) eqn:E3.
  { apply Z.eqb_eq in E3.
    rewrite E3, !toUpperCase_cons, !upper_digitChar by (apply Hd; lia).
    reflexivity. }
  rewrite H3. cbn [Z.eqb].
  rewrite !toUpperCase_cons, !upper_digitChar by (apply Hd; lia). reflexivity.
Qed.

(** *** The bit operators on small non-negative numbers *)

Lemma ToInt32_small z : 0 <= z < 2 ^ 31 -> ToInt32 z = z.
Proof.
  intros Hz. unfold ToInt32.
  rewrite Z.mod_small by lia.
  destruct (z <? 2 ^ 31) eqn:E; lia.
Qed.

Lemma land_bit15 c :
  Z.land c 0x8000 = if Z.testbit c 15 then 0x8000 else 0.
Proof.
  apply Z.bits_inj'. intros i Hi.
  rewrite Z.land_spec.
  change 0x8000 with (2 ^ 15) at 1.
  rewrite Z.pow2_bits_eqb by lia.
  destruct (15 =? i) eqn:E.
  - apply Z.eqb_eq in E. subst i.
    destruct (Z.testbit c 15); reflexivity.
  - rewrite andb_false_r.
    destruct (Z.testbit c 15); [|rewrite Z.bits_0; reflexivity].
    change 0x8000 with (2 ^ 15).
    rewrite Z.pow2_bits_eqb, E by lia. reflexivity.
Qed.

Lemma lxor_below k a b :
  0 <= k -> 0 <= a < 2 ^ k -> 0 <= b < 2 ^ k -> 0 <= Z.lxor a b < 2 ^ k.
Proof.
  intros Hk Ha Hb.
  assert (Hnn : 0 <= Z.lxor a b) by (apply Z.lxor_nonneg; lia).
  split; [exact Hnn|].
  destruct (decide (Z.lxor a b = 0)) as [->|Hne];
    [apply Z.pow_pos_nonneg; lia|].
  assert (0 < k).
  { destruct (decide (k = 0)) as [->|]; [|lia].
    exfalso. apply Hne.
    replace a with 0 by (cbn in Ha; lia).
    replace b with 0 by (cbn in Hb; lia). reflexivity. }
  apply Z.log2_lt_pow2; [lia|].
  pose proof (Z.log2_lxor a b ltac:(lia) ltac:(lia)) as Hl.
  assert (Z.log2 a < k).
  { destruct (decide (a = 0)) as [->|]; [cbn; lia|].
    apply Z.log2_lt_pow2; lia. }
  assert (Z.log2 b < k).
  { destruct (decide (b = 0)) as [->|]; [cbn; lia|].
    apply Z.log2_lt_pow2; lia. }
  lia.
Qed.

Lemma and_mask16 x :
  0 <= x < 2 ^ 31 -> JS.and x 0xFFFF = x mod 2 ^ 16.
Proof.
  intros Hx. unfold JS.and.
  rewrite (ToInt32_small x) by lia.
  rewrite (ToInt32_small 0xFFFF) by lia.
  change 0xFFFF with (Z.ones 16).
  rewrite Z.land_ones by lia.
  apply ToInt32_small.
  pose proof (Z.mod_pos_bound x (2 ^ 16) ltac:(lia)). lia.
Qed.

(** The mask bounds the accumulator whatever the operand is. *)
Lemma and_mask16_range x : 0 <= JS.and x 0xFFFF < 65536.
Proof.
  unfold JS.and.
  rewrite (ToInt32_small 0xFFFF) by lia.
  change 0xFFFF with (Z.ones 16).
  rewrite Z.land_ones by lia.
  pose proof (Z.mod_pos_bound (ToInt32 x) (2 ^ 16) ltac:(lia)).
  rewrite ToInt32_small; lia.
Qed.

Lemma shl_small a k :
  0 <= k < 32 -> 0 <= a -> a * 2 ^ k < 2 ^ 31 ->
  JS.shl a k = Z.shiftl a k.
Proof.
  intros Hk Ha Hb. unfold JS.shl.
  assert (0 < 2 ^ k) by (apply Z.pow_pos_nonneg; lia).
  rewrite (ToInt32_small a) by nia.
  rewrite (Z.mod_small k) by lia.
  rewrite Z.shiftl_mul_pow2 by lia.
  apply ToInt32_small. nia.
Qed.

Lemma xor_small a b :
  0 <= a < 2 ^ 31 -> 0 <= b < 2 ^ 31 -> JS.xor a b = Z.lxor a b.
Proof.
  intros Ha Hb. unfold JS.xor.
  rewrite (ToInt32_small a), (ToInt32_small b) by lia.
  apply ToInt32_small. apply lxor_below; lia.
Qed.

(** *** The checksum loop against the reference algorithm *)

Lemma round_range acc : 0 <= Spec.round acc < 65536.
Proof.
  unfold Spec.round.
  destruct (Z.testbit acc 15); apply Z.mod_pos_bound; lia.
Qed.

Lemma crc_round_range c : 0 <= crc_round c < 65536.
Proof. apply and_mask16_range. Qed.

Lemma crc_round_spec c : 0 <= c < 65536 -> crc_round c = Spec.round c.
Proof.
  intros Hc. unfold crc_round, Spec.round.
  assert (Hand : JS.and c 0x8000 = Z.land c 0x8000).
  { unfold JS.and.
    rewrite (ToInt32_small c), (ToInt32_small 0x8000) by lia.
    apply ToInt32_small. rewrite land_bit15.
    destruct (Z.testbit c 15); lia. }
  assert (Hshl : JS.shl c 1 = Z.shiftl c 1) by (apply shl_small; lia).
  assert (Hs : 0 <= Z.shiftl c 1 < 2 ^ 17)
    by (rewrite Z.shiftl_mul_pow2 by lia; lia).
  rewrite Hand, land_bit15, Hshl.
  destruct (Z.testbit c 15); cbn [Z.eqb].
  - rewrite xor_small by lia.
    apply and_mask16.
    pose proof (lxor_below 17 (Z.shiftl c 1) 0x1021 ltac:(lia) Hs ltac:(lia)).
    lia.
  - apply and_mask16. lia.
Qed.

Lemma iter_round_spec (k : nat) c :
  0 <= c < 65536 ->
  Nat.iter k crc_round c = Nat.iter k Spec.round c /\
  0 <= Nat.iter k Spec.round c < 65536.
Proof.
  intros Hc. induction k as [|k [IHeq IHr]]; [cbn; auto|].
  rewrite !Nat.iter_succ, IHeq.
  split; [apply crc_round_spec, IHr | apply round_range].
Qed.

Lemma crc_byte_spec c b :
  0 <= c < 65536 -> 0 <= b < 256 ->
  crc_byte c b = Spec.step c b /\ 0 <= Spec.step c b < 65536.
Proof.
  intros Hc Hb. unfold crc_byte, Spec.step.
  rewrite shl_small by lia.
  assert (Hs : 0 <= Z.shiftl b 8 < 2 ^ 16)
    by (rewrite Z.shiftl_mul_pow2 by lia; lia).
  rewrite xor_small by lia.
  apply iter_round_spec.
  pose proof (lxor_below 16 c (Z.shiftl b 8) ltac:(lia) ltac:(lia) Hs). lia.
Qed.

Lemma crc_byte_range c b : 0 <= crc_byte c b < 65536.
Proof. unfold crc_byte. rewrite Nat.iter_succ. apply crc_round_range. Qed.

(** One iteration of a [for] loop over a list, as a rewriting rule. *)
Lemma fold_left_step {A B} (f : A -> B -> A) b l a :
  fold_left f (b :: l) a = fold_left f l (f a b).
Proof. reflexivity. Qed.

Lemma fold_crc_byte_range bytes : forall c,
  0 <= c < 65536 -> 0 <= fold_left crc_byte bytes c < 65536.
Proof.
  induction bytes as [|b bytes IH]; intros c Hc; [exact Hc|].
  rewrite fold_left_step. apply IH, crc_byte_range.
Qed.

Lemma crc16_bytes_range bytes : 0 <= crc16_bytes bytes < 65536.
Proof. apply fold_crc_byte_range. lia. Qed.

Lemma fold_crc_byte_spec bytes : forall c,
  0 <= c < 65536 -> Forall (fun b => 0 <= b < 256) bytes ->
  fold_left crc_byte bytes c = fold_left Spec.step bytes c.
Proof.
  induction bytes as [|b bytes IH]; intros c Hc Hall; [reflexivity|].
  inversion Hall as [|? ? Hb Hrest]; subst.
  rewrite !fold_left_step.
  destruct (crc_byte_spec c b Hc Hb) as [-> Hr].
  apply IH; assumption.
Qed.

(** ** Strings and single TLVs *)

Lemma js_length_nonneg s : 0 <= js_length s.
Proof. unfold js_length. lia. Qed.

Lemma js_length_app a b : js_length (a ++ b) = js_length a + js_length b.
Proof. unfold js_length. rewrite length_app. lia. Qed.

(** The slice between two cut points of a string. *)
Lemma substring_middle pre mid post :
  substring (pre ++ mid ++ post) (js_length pre)
    (js_length pre + js_length mid) = mid.
Proof.
  unfold substring, clamp. rewrite !js_length_app.
  pose proof (js_length_nonneg pre). pose proof (js_length_nonneg mid).
  pose proof (js_length_nonneg post).
  rewrite (Z.max_l (js_length pre)) by lia.
  rewrite (Z.max_l (js_length pre + js_length mid)) by lia.
  rewrite (Z.min_l (js_length pre)) by lia.
  rewrite (Z.min_l (js_length pre + js_length mid)) by lia.
  rewrite (Z.min_l (js_length pre)) by lia.
  rewrite (Z.max_r (js_length pre)) by lia.
  replace (js_length pre + js_length mid - js_length pre)
    with (js_length mid) by lia.
  unfold js_length. rewrite !Nat2Z.id.
  rewrite drop_app_length, take_app_length. reflexivity.
Qed.

Lemma zero_pad2_length n : length (Spec.zero_pad2 n) = 2%nat.
Proof. reflexivity. Qed.

(** With at most 99 characters the header is exactly two digits. *)
Lemma createTLV_two_digits t v :
  js_length v <= 99 ->
  createTLV t v = t ++ Spec.zero_pad2 (js_length v) ++ v.
Proof.
  intros Hv. unfold createTLV, getEmvoLength.
  rewrite formatLength_two_digits by (pose proof (js_length_nonneg v); lia).
  reflexivity.
Qed.

Lemma createTLV_length t v :
  length t = 2%nat -> js_length v <= 99 ->
  js_length (createTLV t v) = 4 + js_length v.
Proof.
  intros Ht Hv. rewrite createTLV_two_digits by exact Hv.
  rewrite !js_length_app. unfold js_length at 1 2.
  rewrite Ht, zero_pad2_length. lia.
Qed.

(** [parseTLV] reads back a TLV written by [createTLV], wherever it sits. *)
Lemma parseTLV_createTLV pre t v post :
  length t = 2%nat -> js_length v <= 99 ->
  parseTLV (pre ++ createTLV t v ++ post) (js_length pre) =
    Some (mkParsedTLV t (js_length v) v (js_length pre + 4 + js_length v)).
Proof.
  intros Ht Hv.
  pose proof (js_length_nonneg pre). pose proof (js_length_nonneg v).
  pose proof (js_length_nonneg post).
  assert (Ht' : js_length t = 2) by (unfold js_length; lia).
  set (hdr := Spec.zero_pad2 (js_length v)).
  assert (Hh : js_length hdr = 2) by reflexivity.
  rewrite createTLV_two_digits by exact Hv. fold hdr.
  set (data := pre ++ (t ++ hdr ++ v) ++ post).
  assert (Hlen : js_length data = js_length pre + 4 + js_length v
                                 + js_length post).
  { unfold data. rewrite !js_length_app. lia. }
  assert (Htag : substring data (js_length pre) (js_length pre + 2) = t).
  { replace (js_length pre + 2) with (js_length pre + js_length t) by lia.
    unfold data. rewrite <- !app_assoc. apply substring_middle. }
  assert (Hstr : substring data (js_length pre + 2) (js_length pre + 4) = hdr).
  { replace (js_length pre + 2) with (js_length (pre ++ t))
      by (rewrite js_length_app; lia).
    replace (js_length pre + 4) with (js_length (pre ++ t) + js_length hdr)
      by (rewrite js_length_app; lia).
    unfold data. rewrite <- !app_assoc.
    rewrite (app_assoc pre t). apply substring_middle. }
  assert (Hval : substring data (js_length pre + 4)
                   (js_length pre + 4 + js_length v) = v).
  { replace (js_length pre + 4) with (js_length (pre ++ t ++ hdr))
      by (rewrite !js_length_app; lia).
    unfold data. rewrite <- !app_assoc.
    rewrite (app_assoc t hdr), (app_assoc pre (t ++ hdr)).
    apply substring_middle. }
  unfold parseTLV. cbv zeta. rewrite Hlen, Htag, Hstr.
  destruct (js_length pre >=? _) eqn:E1; [lia|].
  unfold hdr at 1. rewrite <- formatLength_two_digits by lia.
  rewrite parseInt_formatLength by lia.
  destruct (js_length pre + 4 + js_length v >? _) eqn:E2; [lia|].
  rewrite Hval. reflexivity.
Qed.

(** With fewer than four characters left [parseTLV] returns [null]. *)
Lemma parseTLV_short data index :
  js_length data - index < 4 -> parseTLV data index = None.
Proof.
  intros Hs. unfold parseTLV.
  destruct (index >=? js_length data - 3) eqn:E; [reflexivity|lia].
Qed.

(** ** The TLV walk *)

Lemma tlv_while_unfold {A} (body : A -> ParsedTLV -> option A) fuel data
    index acc :
  tlv_while body (S fuel) data index acc =
    if index <? js_length data then
      match parseTLV data index with
      | None => Some acc
      | Some parsed =>
          match body acc parsed with
          | None => None
          | Some acc' => tlv_while body fuel data (nextIndex parsed) acc'
          end
      end
    else Some acc.
Proof. reflexivity. Qed.

Lemma tlv_trace_unfold fuel data index :
  tlv_trace (S fuel) data index =
    if index <? js_length data then
      match parseTLV data index with
      | None => Some []
      | Some parsed => (parsed ::.) <$> tlv_trace fuel data (nextIndex parsed)
      end
    else Some [].
Proof. reflexivity. Qed.

(** The loop is its trace followed by the bodies: the walk itself does not
    depend on what the body computes. *)
Lemma tlv_while_trace {A} (body : A -> ParsedTLV -> option A) fuel :
  forall data index acc,
  tlv_while body fuel data index acc =
    match tlv_trace fuel data index with
    | None => None
    | Some tr => run_parsed body tr acc
    end.
Proof.
  induction fuel as [|fuel IH]; intros data index acc; [reflexivity|].
  rewrite tlv_while_unfold, tlv_trace_unfold.
  destruct (index <? js_length data); [|reflexivity].
  destruct (parseTLV data index) as [parsed|]; [|reflexivity].
  destruct (tlv_trace fuel data (nextIndex parsed)) as [tr|] eqn:Etr;
    cbn [fmap option_fmap option_map run_parsed].
  - destruct (body acc parsed) as [acc'|]; [|reflexivity].
    rewrite IH, Etr. reflexivity.
  - destruct (body acc parsed) as [acc'|]; [|reflexivity].
    rewrite IH, Etr. reflexivity.
Qed.

(** More fuel does not change a finished walk. *)
Lemma tlv_trace_mono fuel : forall fuel' data index tr,
  tlv_trace fuel data index = Some tr -> (fuel <= fuel')%nat ->
  tlv_trace fuel' data index = Some tr.
Proof.
  induction fuel as [|fuel IH]; intros fuel' data index tr Htr Hle;
    [discriminate|].
  destruct fuel' as [|fuel']; [lia|].
  rewrite tlv_trace_unfold in *.
  destruct (index <? js_length data); [|exact Htr].
  destruct (parseTLV data index) as [parsed|]; [|exact Htr].
  destruct (tlv_trace fuel data (nextIndex parsed)) as [tr'|] eqn:E;
    [|discriminate].
  rewrite (IH fuel' _ _ tr' E) by lia. exact Htr.
Qed.

Lemma run_parsed_mono {A} (body body' : A -> ParsedTLV -> option A) :
  (forall a p x, body a p = Some x -> body' a p = Some x) ->
  forall tr acc x,
  run_parsed body tr acc = Some x -> run_parsed body' tr acc = Some x.
Proof.
  intros Hb tr. induction tr as [|p tr IH]; intros acc x Hrun; [exact Hrun|].
  cbn [run_parsed] in *.
  destruct (body acc p) as [acc'|] eqn:E; [|discriminate].
  rewrite (Hb _ _ _ E). apply IH, Hrun.
Qed.

(** The walk over a well-formed sequence visits exactly its TLVs and stops
    at the first place where [parseTLV] returns [null]. *)
Lemma tlv_trace_stop l : forall pre rest fuel,
  Forall wf_tlv l ->
  parseTLV (pre ++ encodeTLVs l ++ rest)
    (js_length pre + js_length (encodeTLVs l)) = None ->
  (length l < fuel)%nat ->
  tlv_trace fuel (pre ++ encodeTLVs l ++ rest) (js_length pre) =
    Some (parsed_list (js_length pre) l).
Proof.
  induction l as [|[t v] l IH]; intros pre rest fuel Hwf Hstop Hfuel;
    (destruct fuel as [|fuel]; [cbn in Hfuel; lia|]);
    rewrite tlv_trace_unfold.
  - change (encodeTLVs []) with (@nil Z) in *.
    change (js_length []) with 0 in Hstop. rewrite Z.add_0_r in Hstop.
    rewrite Hstop. destruct (_ <? _); reflexivity.
  - inversion Hwf as [|? ? [Ht Hv] Hrest]; subst. cbn [fst snd] in Ht, Hv.
    change (encodeTLVs ((t, v) :: l)) with (createTLV t v ++ encodeTLVs l)
      in *.
    rewrite <- (app_assoc (createTLV t v)) in *.
    rewrite parseTLV_createTLV by assumption.
    pose proof (js_length_nonneg v).
    pose proof (js_length_nonneg (encodeTLVs l)).
    pose proof (js_length_nonneg rest).
    destruct (js_length pre <? _) eqn:E.
    2:{ rewrite !js_length_app, createTLV_length in E by assumption. lia. }
    cbn [nextIndex parsed_list fst snd].
    assert (Hpre : js_length (pre ++ createTLV t v)
                   = js_length pre + 4 + js_length v)
      by (rewrite js_length_app, createTLV_length by assumption; lia).
    rewrite <- Hpre, (app_assoc pre).
    rewrite IH; [|assumption| |cbn in Hfuel; lia].
    + unfold parsed_at. cbn [fst snd fmap option_fmap option_map].
      rewrite Hpre. reflexivity.
    + rewrite <- Hstop, <- (app_assoc pre). f_equal.
      rewrite !js_length_app. lia.
Qed.

Lemma tlv_trace_wf l pre frag fuel :
  Forall wf_tlv l -> js_length frag <= 3 -> (length l < fuel)%nat ->
  tlv_trace fuel (pre ++ encodeTLVs l ++ frag) (js_length pre) =
    Some (parsed_list (js_length pre) l).
Proof.
  intros Hwf Hfrag Hfuel. apply tlv_trace_stop; [assumption| |assumption].
  apply parseTLV_short. rewrite !js_length_app. lia.
Qed.

Lemma tlv_while_wf {A} (body : A -> ParsedTLV -> option A) l pre frag fuel acc :
  Forall wf_tlv l -> js_length frag <= 3 -> (length l < fuel)%nat ->
  tlv_while body fuel (pre ++ encodeTLVs l ++ frag) (js_length pre) acc =
    run_parsed body (parsed_list (js_length pre) l) acc.
Proof.
  intros Hwf Hfrag Hfuel.
  rewrite tlv_while_trace, tlv_trace_wf by assumption. reflexivity.
Qed.

(** ** The two loop bodies *)

(** [parseSubTLVs] on a well-formed sequence: one assignment per TLV, in
    order, so that a repeated tag keeps its last value. *)
Lemma run_subTlvs l : forall index (m : gmap jsstring jsstring),
  run_parsed subTlvs_body (parsed_list index l) m =
    Some (fold_left (fun m tv => <[tv.1 := tv.2]> m) l m).
Proof.
  induction l as [|tv l IH]; intros index m; [reflexivity|].
  cbn [parsed_list run_parsed subTlvs_body fold_left].
  apply IH.
Qed.

Lemma parseSubTLVs_wf l frag fuel :
  Forall wf_tlv l -> js_length frag <= 3 -> (length l < fuel)%nat ->
  parseSubTLVs fuel (encodeTLVs l ++ frag) =
    Some (fold_left (fun m tv => <[tv.1 := tv.2]> m) l ∅).
Proof.
  intros Hwf Hfrag Hfuel. unfold parseSubTLVs.
  rewrite <- (app_nil_l (encodeTLVs l ++ frag)).
  change 0 with (js_length []).
  rewrite tlv_while_wf by assumption. apply run_subTlvs.
Qed.

Lemma parseSubTLVs_mono fuel fuel' data m :
  parseSubTLVs fuel data = Some m -> (fuel <= fuel')%nat ->
  parseSubTLVs fuel' data = Some m.
Proof.
  unfold parseSubTLVs. rewrite !tlv_while_trace. intros Hrun Hle.
  destruct (tlv_trace fuel data 0) as [tr|] eqn:E; [|discriminate].
  rewrite (tlv_trace_mono _ _ _ _ _ E Hle). exact Hrun.
Qed.

(** The body reads the tag and the value only. *)
Lemma qr_body_index fuel pd i j tv :
  qr_body fuel pd (parsed_at i tv) = qr_body fuel pd (parsed_at j tv).
Proof. reflexivity. Qed.

Lemma run_qr_index fuel l : forall i j pd,
  run_parsed (qr_body fuel) (parsed_list i l) pd =
    run_parsed (qr_body fuel) (parsed_list j l) pd.
Proof.
  induction l as [|tv l IH]; intros i j pd; [reflexivity|].
  cbn [parsed_list run_parsed].
  rewrite (qr_body_index fuel pd i j).
  destruct (qr_body fuel pd (parsed_at j tv)); [apply IH|reflexivity].
Qed.

(** A tag outside the table falls through the [switch]. *)
Lemma qr_body_unknown fuel pd p :
  tag p ∉ knownTags -> qr_body fuel pd p = Some pd.
Proof.
  intros Hu. unfold knownTags in Hu.
  rewrite !not_elem_of_cons in Hu.
  unfold qr_body. repeat case_decide; try reflexivity; exfalso; tauto.
Qed.

Lemma qr_body_mono fuel fuel' pd p x :
  qr_body fuel pd p = Some x -> (fuel <= fuel')%nat ->
  qr_body fuel' pd p = Some x.
Proof.
  intros Hb Hle. unfold qr_body in *.
  repeat case_decide; try exact Hb.
  - destruct (parseSubTLVs fuel (value p)) as [m|] eqn:E; [|discriminate].
    rewrite (parseSubTLVs_mono _ _ _ _ E Hle). exact Hb.
  - destruct (parseSubTLVs fuel (value p)) as [m|] eqn:E; [|discriminate].
    rewrite (parseSubTLVs_mono _ _ _ _ E Hle). exact Hb.
Qed.

Lemma parseQrData_mono fuel fuel' data pd :
  parseQrData fuel data = Some pd -> (fuel <= fuel')%nat ->
  parseQrData fuel' data = Some pd.
Proof.
  unfold parseQrData. rewrite !tlv_while_trace. intros Hrun Hle.
  destruct (tlv_trace fuel data 0) as [tr|] eqn:E; [|discriminate].
  rewrite (tlv_trace_mono _ _ _ _ _ E Hle).
  apply (run_parsed_mono (qr_body fuel)); [|exact Hrun].
  intros a p x Hb. apply (qr_body_mono _ _ _ _ _ Hb Hle).
Qed.

(** More fuel does not change a finished decode. *)
Lemma parseQrString_mono fuel fuel' prev data r :
  parseQrString fuel prev data = Some r -> (fuel <= fuel')%nat ->
  parseQrString fuel' prev data = Some r.
Proof.
  unfold parseQrString. intros Hrun Hle.
  destruct (parseQrData fuel data) as [pd|] eqn:E; [|discriminate].
  rewrite (parseQrData_mono _ _ _ _ E Hle). exact Hrun.
Qed.

(** On a well-formed top-level TLV the body finishes. *)
Lemma qr_body_wf pd i tv :
  wf_top tv ->
  exists n pd', forall fuel, (n <= fuel)%nat ->
    qr_body fuel pd (parsed_at i tv) = Some pd'.
Proof.
  intros [Hwf Hcomp].
  destruct (decide (tv.1 = js "44")) as [E44|N44].
  { destruct Hcomp as (sub & Hsub & Hval); [left; exact E44|].
    exists (S (length sub)). eexists. intros fuel Hfuel.
    unfold qr_body. cbn [tag value parsed_at].
    rewrite E44, Hval, <- (app_nil_r (encodeTLVs sub)).
    rewrite parseSubTLVs_wf;
      [reflexivity | assumption | unfold js_length; cbn; lia | lia]. }
  destruct (decide (tv.1 = js "64")) as [E64|N64].
  { destruct Hcomp as (sub & Hsub & Hval); [right; exact E64|].
    exists (S (length sub)). eexists. intros fuel Hfuel.
    unfold qr_body. cbn [tag value parsed_at].
    rewrite E64, Hval, <- (app_nil_r (encodeTLVs sub)).
    rewrite parseSubTLVs_wf;
      [reflexivity | assumption | unfold js_length; cbn; lia | lia]. }
  exists 0%nat. exists (default pd (qr_body 0 pd (parsed_at i tv))).
  intros fuel _. unfold qr_body. cbn [tag value parsed_at].
  repeat case_decide; try reflexivity; contradiction.
Qed.

Lemma run_qr_wf l : forall i pd,
  Forall wf_top l ->
  exists n pd', forall fuel, (n <= fuel)%nat ->
    run_parsed (qr_body fuel) (parsed_list i l) pd = Some pd'.
Proof.
  induction l as [|tv l IH]; intros i pd Hwf.
  - exists 0%nat, pd. reflexivity.
  - inversion Hwf as [|? ? Htv Hrest]; subst.
    destruct (qr_body_wf pd i tv Htv) as (n1 & pd1 & H1).
    destruct (IH (i + 4 + js_length tv.2) pd1 Hrest) as (n2 & pd2 & H2).
    exists (n1 `max` n2)%nat, pd2. intros fuel Hfuel.
    cbn [parsed_list run_parsed].
    rewrite H1 by lia. apply H2. lia.
Qed.

Lemma wf_top_flat l : Forall wf_top l -> Forall wf_tlv l.
Proof.
  intros H. eapply Forall_impl; [exact H|]. intros tv [Hwf _]. exact Hwf.
Qed.

(** ** The encoder: single TLVs *)

(** C1 (counterexample).  A value of exactly 100 characters does not make
    [createTLV] fail: where the specification's [encodeTLV] reports
    [LengthOverflow], the code returns a string whose length field is the
    three characters "100". *)
Lemma createTLV_100_chars_no_overflow :
  let v := replicate 100 97 in
  Spec.encodeTLV (js "00") v = inl Spec.LengthOverflow /\
  createTLV (js "00") v = js "00" ++ js "100" ++ v /\
  inr (createTLV (js "00") v) <> Spec.encodeTLV (js "00") v.
Proof. vm_compute. repeat split; discriminate. Qed.

(** C1 (amended).  [createTLV] has no failure path.  For a value of at most
    99 characters it returns what the specification's [encodeTLV] returns,
    tag, two-digit zero-padded character count, value; a value of exactly
    99 characters is encoded with the length header "99". *)
Theorem createTLV_within_99 (tag value : jsstring) :
  js_length value <= 99 ->
  inr (createTLV tag value) = Spec.encodeTLV tag value /\
  (js_length value = 99 -> createTLV tag value = tag ++ js "99" ++ value).
Proof.
  intros Hv. rewrite createTLV_two_digits by exact Hv. split.
  - unfold Spec.encodeTLV.
    destruct (js_length value >? 99) eqn:E; [lia|reflexivity].
  - intros ->. reflexivity.
Qed.

(** A value of 99 characters under tag 00. *)
Lemma createTLV_within_99_witness :
  js_length (replicate 99 97) <= 99 /\
  (inr (createTLV (js "00") (replicate 99 97))
     = Spec.encodeTLV (js "00") (replicate 99 97) /\
   (js_length (replicate 99 97) = 99 ->
    createTLV (js "00") (replicate 99 97)
      = js "00" ++ js "99" ++ replicate 99 97)).
Proof.
  assert (H : js_length (replicate 99 97) <= 99)
    by (unfold js_length; rewrite length_replicate; lia).
  split; [exact H | exact (createTLV_within_99 (js "00") (replicate 99 97) H)].
Defined.

(** ** The encoder: merchant account information *)

(** C2 (the code at the failing input).  For the sample merchant id the
    sub-tag 01 of the merchant account information repeats the merchant id
    instead of carrying "410790020044601": [merchantId || "410790020044601"]
    takes the fixed string only when the merchant id is empty.  The rest of
    the component expects the fixed string: the TLV tree displayed next to
    the string lists it under tag 44, and the initial [crc] "A26F" is the
    checksum of the payload built with the initial [merchantAccountInfo],
    while the string generated from the initial form data ends in "5F14". *)
Theorem merchantAccountInfo_repeats_merchantId :
  generateMerchantAccountInfo (js "com.konai.konacard")
    = js "0018com.konai.konacard0118com.konai.konacard" /\
  generateMerchantAccountInfo (js "com.konai.konacard")
    <> js "0018com.konai.konacard0115410790020044601" /\
  (fun node => (tlv_tag node, tlv_value node, encodeSubTags node))
    <$> tlvs (generateQrString initialFormData) !! 2%nat
    = Some (js "44", js "0018com.konai.konacard0118com.konai.konacard",
            js "0018com.konai.konacard0115410790020044601") /\
  calculateCRC16
    (encodeTLVs
       [ (js "00", js "01"); (js "01", js "11");
         (js "44", merchantAccountInfo initialFormData);
         (js "52", js "3001"); (js "53", js "410"); (js "58", js "KR");
         (js "59", js "KONA"); (js "60", js "KONA");
         (js "64", generateAdditionalDataTLV (additionalData initialFormData)) ]
     ++ js "6304") = crc initialFormData /\
  drop 121 (encode initialFormData) = js "63045F14".
Proof. vm_compute. repeat split; [discriminate]. Qed.

(** ** The checksum *)

Lemma hexDigit_upper d : 0 <= d < 16 -> isUpperHexDigit (Spec.hexDigit d).
Proof.
  intros Hd. unfold isUpperHexDigit, Spec.hexDigit.
  destruct (d <? 10) eqn:E; lia.
Qed.

Lemma hex4_upper n : Forall isUpperHexDigit (Spec.hex4 n).
Proof.
  unfold Spec.hex4.
  repeat (apply Forall_cons; split;
          [apply hexDigit_upper, Z.mod_pos_bound; lia|]).
  apply Forall_nil_2.
Qed.

(** The checksum string of any input: four uppercase hexadecimal digits. *)
Lemma calculateCRC16_shape data :
  length (calculateCRC16 data) = 4%nat /\
  Forall isUpperHexDigit (calculateCRC16 data).
Proof.
  unfold calculateCRC16.
  rewrite crc16_render_hex4 by apply crc16_bytes_range.
  split; [reflexivity | apply hex4_upper].
Qed.

(** [TextEncoder.encode] produces octets. *)
Lemma utf8_of_codepoint_octets cp :
  0 <= cp < 0x110000 -> Forall isOctet (utf8_of_codepoint cp).
Proof.
  intros Hcp. unfold utf8_of_codepoint.
  destruct (cp <? 0x80) eqn:E1;
    [|destruct (cp <? 0x800) eqn:E2; [|destruct (cp <? 0x10000) eqn:E3]];
    repeat (apply Forall_cons; split;
            [unfold isOctet; Z.to_euclidean_division_equations; lia|]);
    apply Forall_nil_2.
Qed.

Lemma TextEncoder_encode_cons c r :
  TextEncoder_encode (c :: r) =
    if isHighSurrogate c then
      match r with
      | d :: r' =>
          if isLowSurrogate d
          then utf8_of_codepoint (0x10000 + (c - 0xD800) * 1024 + (d - 0xDC00))
               ++ TextEncoder_encode r'
          else utf8_of_codepoint 0xFFFD ++ TextEncoder_encode r
      | [] => utf8_of_codepoint 0xFFFD
      end
    else if isLowSurrogate c
    then utf8_of_codepoint 0xFFFD ++ TextEncoder_encode r
    else utf8_of_codepoint c ++ TextEncoder_encode r.
Proof. reflexivity. Qed.

Lemma TextEncoder_encode_octets_upto (n : nat) : forall data,
  (length data <= n)%nat -> Forall isCodeUnit data ->
  Forall isOctet (TextEncoder_encode data).
Proof.
  induction n as [|n IH]; intros data Hlen Hdata.
  { destruct data; [apply Forall_nil_2|cbn in Hlen; lia]. }
  destruct data as [|c r]; [apply Forall_nil_2|].
  apply Forall_cons in Hdata as [Hc Hr]. unfold isCodeUnit in Hc.
  cbn [length] in Hlen.
  assert (Hrec : Forall isOctet (TextEncoder_encode r))
    by (apply IH; [lia|exact Hr]).
  assert (Hfffd : Forall isOctet (utf8_of_codepoint 0xFFFD))
    by (apply utf8_of_codepoint_octets; lia).
  rewrite TextEncoder_encode_cons.
  destruct (isHighSurrogate c) eqn:Ehigh.
  - destruct r as [|d r']; [exact Hfffd|].
    destruct (isLowSurrogate d) eqn:Elow.
    + apply Forall_cons in Hr as [Hd Hr']. cbn [length] in Hlen.
      apply Forall_app. split; [|apply IH; [lia|exact Hr']].
      apply utf8_of_codepoint_octets.
      unfold isHighSurrogate in Ehigh. unfold isLowSurrogate in Elow. lia.
    + apply Forall_app. split; assumption.
  - destruct (isLowSurrogate c); apply Forall_app; split; try assumption.
    apply utf8_of_codepoint_octets. lia.
Qed.

Lemma TextEncoder_encode_octets data :
  Forall isCodeUnit data -> Forall isOctet (TextEncoder_encode data).
Proof. apply (TextEncoder_encode_octets_upto (length data)). lia. Qed.

(** The checksum of a string is the reference checksum of its UTF-8
    octets. *)
Lemma calculateCRC16_of_string data :
  Forall isCodeUnit data ->
  calculateCRC16 data = Spec.checksum (TextEncoder_encode data).
Proof.
  intros Hdata. unfold calculateCRC16.
  rewrite crc16_render_hex4 by apply crc16_bytes_range.
  unfold Spec.checksum, Spec.crc16, crc16_bytes.
  rewrite fold_crc_byte_spec;
    [reflexivity|lia|apply TextEncoder_encode_octets, Hdata].
Qed.

(** C4.  On every sequence of octets the loop of [calculateCRC16], with its
    32-bit operators, computes the CRC-16/CCITT-FALSE reference (start at
    0xFFFF, XOR the octet into the high byte, eight rounds of shift and
    conditional XOR with 0x1021, masked to 16 bits), and the rendering is
    the four uppercase zero-padded hexadecimal digits of the accumulator;
    the empty input gives "FFFF". *)
Theorem calculateCRC16_reference (bytes : list Z) :
  Forall isOctet bytes ->
  crc16_render (crc16_bytes bytes) = Spec.checksum bytes /\
  (forall data, TextEncoder_encode data = bytes ->
                calculateCRC16 data = Spec.checksum bytes) /\
  length (Spec.checksum bytes) = 4%nat /\
  Forall isUpperHexDigit (Spec.checksum bytes) /\
  calculateCRC16 [] = js "FFFF".
Proof.
  intros Hb.
  assert (Heq : crc16_render (crc16_bytes bytes) = Spec.checksum bytes).
  { rewrite crc16_render_hex4 by apply crc16_bytes_range.
    unfold Spec.checksum, Spec.crc16, crc16_bytes.
    rewrite fold_crc_byte_spec by (try exact Hb; lia). reflexivity. }
  split; [exact Heq|]. split.
  { intros data <-. exact Heq. }
  split; [reflexivity|]. split; [apply hex4_upper|].
  vm_compute. reflexivity.
Qed.

(** The check value of CRC-16/CCITT-FALSE: "123456789" gives 29B1. *)
Lemma calculateCRC16_reference_witness :
  Forall isOctet (TextEncoder_encode (js "123456789")) /\
  calculateCRC16 (js "123456789") = js "29B1".
Proof.
  assert (H : Forall isOctet (TextEncoder_encode (js "123456789"))).
  { change (Forall isOctet [49; 50; 51; 52; 53; 54; 55; 56; 57]).
    repeat (apply Forall_cons; split; [unfold isOctet; lia|]).
    apply Forall_nil_2. }
  split; [exact H|].
  destruct (calculateCRC16_reference _ H) as (_ & Hdata & _).
  rewrite (Hdata _ eq_refl). vm_compute. reflexivity.
Defined.

(** ** The encoder: the whole string *)

(** C3.  The encoder emits the top-level TLVs in the order 00, 01, 44, 52,
    53, 58, 59, 60, 64, the value of 44 being the TLVs 00 and 01 and the
    value of 64 the TLVs 00, 01 and 02; the checksum is computed over this
    body followed by "6304", and the result is the body followed by "63",
    "04" and the checksum, which is four uppercase hexadecimal digits. *)
Theorem encode_layout (r : EmvoQrData) :
  exists account additional body checksum,
    account =
      encodeTLVs [ (js "00", merchantId r);
                   (js "01", js_or (merchantId r) (js "410790020044601")) ] /\
    additional =
      encodeTLVs [ (js "00", ad00 (additionalData r));
                   (js "01", ad01 (additionalData r));
                   (js "02", ad02 (additionalData r)) ] /\
    body =
      encodeTLVs [ (js "00", payloadFormatIndicator r);
                   (js "01", pointOfInitiationMethod r);
                   (js "44", account);
                   (js "52", merchantCategoryCode r);
                   (js "53", transactionCurrency r);
                   (js "58", countryCode r);
                   (js "59", merchantName r);
                   (js "60", merchantCity r);
                   (js "64", additional) ] /\
    checksum = calculateCRC16 (body ++ js "6304") /\
    length checksum = 4%nat /\
    Forall isUpperHexDigit checksum /\
    encode r = body ++ js "63" ++ js "04" ++ checksum.
Proof.
  eexists _, _, _, _.
  split; [reflexivity|]. split; [reflexivity|]. split; [reflexivity|].
  split; [reflexivity|].
  split; [apply calculateCRC16_shape|].
  split; [apply calculateCRC16_shape|].
  unfold encode, generateQrString, qrString.
  unfold generateMerchantAccountInfo, generateAdditionalDataTLV.
  unfold encodeTLVs. cbn [map concat fst snd].
  rewrite !app_nil_r, !app_nil_l, <- !app_assoc.
  repeat f_equal.
  set (c := calculateCRC16 _).
  rewrite createTLV_two_digits.
  - replace (js_length c) with 4; [reflexivity|].
    unfold js_length, c. rewrite (proj1 (calculateCRC16_shape _)). reflexivity.
  - unfold js_length, c. rewrite (proj1 (calculateCRC16_shape _)). lia.
Qed.

(** ** The decoder: termination *)

Lemma parseTLV_minus4 :
  parseTLV (js "00-4") 0 = Some (mkParsedTLV (js "00") (-4) (js "00-4") 0).
Proof. vm_compute. reflexivity. Qed.

(** A loop that meets the header "-4" at index 0 comes back to index 0,
    whatever its (total) body does. *)
Lemma tlv_while_minus4 {A} (body : A -> ParsedTLV -> option A) fuel :
  (forall acc, is_Some (body acc (mkParsedTLV (js "00") (-4) (js "00-4") 0))) ->
  forall acc, tlv_while body fuel (js "00-4") 0 acc = None.
Proof.
  intros Htotal. induction fuel as [|fuel IH]; intros acc; [reflexivity|].
  rewrite tlv_while_unfold, parseTLV_minus4.
  change (0 <? js_length (js "00-4")) with true. cbn [nextIndex].
  destruct (Htotal acc) as [acc' ->].
  apply IH.
Qed.

(** C10 (the code at the failing input).  On the input "00-4" [parseInt]
    reads the length -4, [parseTLV] succeeds with [nextIndex] equal to the
    start index 0, and neither loop ever finishes: whatever the number of
    iterations allowed, [parseQrString] and [parseSubTLVs] are still
    running.  The same happens when "00-4" is the value of a tag 44 TLV. *)
Theorem negative_length_never_terminates :
  (nextIndex <$> parseTLV (js "00-4") 0) = Some 0 /\
  (forall fuel prev, parseQrString fuel prev (js "00-4") = None) /\
  (forall fuel, parseSubTLVs fuel (js "00-4") = None) /\
  (forall fuel prev, parseQrString fuel prev (js "440400-4") = None).
Proof.
  assert (Hsub : forall fuel, parseSubTLVs fuel (js "00-4") = None).
  { intros fuel. unfold parseSubTLVs. apply tlv_while_minus4.
    intros acc. eexists. reflexivity. }
  split; [rewrite parseTLV_minus4; reflexivity|]. split; [|split].
  - intros fuel prev. unfold parseQrString, parseQrData.
    rewrite tlv_while_minus4; [reflexivity|].
    intros acc. eexists. reflexivity.
  - exact Hsub.
  - intros fuel prev. unfold parseQrString, parseQrData.
    destruct fuel as [|fuel']; [reflexivity|].
    rewrite tlv_while_unfold.
    change (0 <? js_length (js "440400-4")) with true.
    replace (parseTLV (js "440400-4") 0)
      with (Some (mkParsedTLV (js "44") 4 (js "00-4") 8))
      by (vm_compute; reflexivity).
    unfold qr_body at 1. cbn [tag value].
    rewrite !decide_False by discriminate.
    rewrite decide_True by reflexivity.
    rewrite Hsub. reflexivity.
Qed.

(** ** The decoder: malformed input *)

Lemma parseQrData_stop l rest fuel :
  Forall wf_tlv l ->
  parseTLV (encodeTLVs l ++ rest) (js_length (encodeTLVs l)) = None ->
  (length l < fuel)%nat ->
  parseQrData fuel (encodeTLVs l ++ rest) =
    run_parsed (qr_body fuel) (parsed_list 0 l) initialParsedData.
Proof.
  intros Hwf Hstop Hfuel. unfold parseQrData.
  rewrite tlv_while_trace.
  rewrite <- (app_nil_l (encodeTLVs l ++ rest)).
  change 0 with (js_length []).
  rewrite tlv_trace_stop; [reflexivity|assumption| |assumption].
  rewrite app_nil_l. exact Hstop.
Qed.

Lemma parseQrData_wf l frag fuel :
  Forall wf_tlv l -> js_length frag <= 3 -> (length l < fuel)%nat ->
  parseQrData fuel (encodeTLVs l ++ frag) =
    run_parsed (qr_body fuel) (parsed_list 0 l) initialParsedData.
Proof.
  intros Hwf Hfrag Hfuel. apply parseQrData_stop; [assumption| |assumption].
  apply parseTLV_short. rewrite js_length_app. lia.
Qed.

(** C5 (counterexample).  On a header whose length is not numeric, and on a
    declared length that runs past the end of the input, the specification's
    decoder fails; the code stops the walk and returns a Record that holds
    the field parsed before that point (here tag 00 with value "99"). *)
Lemma decode_keeps_partial_record :
  Spec.decodeSequence (js "00029901zz11") = inl Spec.MalformedLength /\
  Spec.decodeSequence (js "0002990199ab") = inl Spec.TruncatedValue /\
  (payloadFormatIndicator
     <$> parseQrString 5 initialFormData (js "00029901zz11"))
    = Some (js "99") /\
  (payloadFormatIndicator
     <$> parseQrString 5 initialFormData (js "0002990199ab"))
    = Some (js "99").
Proof. vm_compute. repeat split. Qed.

(** C5 (amended).  When the TLV that follows a well-formed sequence has a
    length header that [parseInt] rejects, or a declared length that exceeds
    the remaining input, decoding does not fail: the walk stops there
    without an error and the call returns the Record it returns for the
    well-formed sequence alone, that is the previous Record updated with the
    fields parsed before the bad TLV. *)
Theorem decode_stops_at_bad_TLV (l : list (jsstring * jsstring))
    (rest : jsstring) (prev : EmvoQrData) :
  Forall wf_top l ->
  let data := encodeTLVs l ++ rest in
  let i := js_length (encodeTLVs l) in
  (parseInt (substring data (i + 2) (i + 4)) = None \/
   exists n, parseInt (substring data (i + 2) (i + 4)) = Some n /\
             i + 4 + n > js_length data) ->
  exists n r, forall fuel, (n <= fuel)%nat ->
    parseQrString fuel prev data = Some r /\
    parseQrString fuel prev (encodeTLVs l) = Some r.
Proof.
  intros Hwf data i Hbad.
  assert (Hstop : parseTLV data i = None).
  { unfold parseTLV. destruct (i >=? js_length data - 3); [reflexivity|].
    cbv zeta. destruct Hbad as [-> | (n & -> & Hn)]; [reflexivity|].
    destruct (i + 4 + n >? js_length data) eqn:E; [reflexivity|lia]. }
  destruct (run_qr_wf l 0 initialParsedData Hwf) as (n & pd & Hrun).
  exists (n `max` S (length l))%nat, (mergeFormData prev pd).
  intros fuel Hfuel. unfold parseQrString. split.
  - unfold data. rewrite parseQrData_stop;
      [|apply wf_top_flat, Hwf|exact Hstop|lia].
    rewrite Hrun by lia. reflexivity.
  - rewrite <- (app_nil_r (encodeTLVs l)).
    rewrite parseQrData_wf;
      [|apply wf_top_flat, Hwf|unfold js_length; cbn; lia|lia].
    rewrite Hrun by lia. reflexivity.
Qed.

Lemma wf_top_plain t v :
  length t = 2%nat -> js_length v <= 99 -> t <> js "44" -> t <> js "64" ->
  wf_top (t, v).
Proof.
  intros Ht Hv H44 H64. split; [split; assumption|].
  intros [E|E]; contradiction.
Qed.

(** Tag 00 followed by a TLV whose length field is "zz". *)
Lemma decode_stops_at_bad_TLV_witness :
  exists n r, forall fuel, (n <= fuel)%nat ->
    parseQrString fuel initialFormData
      (encodeTLVs [(js "00", js "99")] ++ js "01zz11") = Some r /\
    parseQrString fuel initialFormData (encodeTLVs [(js "00", js "99")])
      = Some r.
Proof.
  apply (decode_stops_at_bad_TLV [(js "00", js "99")] (js "01zz11")
           initialFormData).
  - apply Forall_cons; split; [|apply Forall_nil_2].
    apply wf_top_plain; [reflexivity|unfold js_length; cbn; lia
                        |discriminate|discriminate].
  - left. vm_compute. reflexivity.
Defined.

(** ** The decoder: what the returned Record holds *)

Lemma run_parsed_keeps {A B} (body : A -> ParsedTLV -> option A)
    (proj : A -> B) (t : jsstring) :
  (forall a p a', body a p = Some a' -> tag p <> t -> proj a' = proj a) ->
  forall tr a a',
  run_parsed body tr a = Some a' -> t ∉ tags tr -> proj a' = proj a.
Proof.
  intros Hkeep tr. induction tr as [|p tr IH]; intros a a' Hrun Hnot.
  - cbn in Hrun. congruence.
  - cbn [run_parsed] in Hrun.
    unfold tags in Hnot. cbn [map] in Hnot.
    apply not_elem_of_cons in Hnot as [Hne Hnot].
    destruct (body a p) as [a1|] eqn:E; [|discriminate].
    rewrite (IH _ _ Hrun Hnot). apply (Hkeep _ _ _ E). congruence.
Qed.

(** One field of the parsed data is assigned under one tag only. *)
Ltac keeps_field :=
  intros fuel a p a' Hb Hne; unfold qr_body in Hb;
  repeat case_decide;
  try (destruct (parseSubTLVs fuel (value p)); [|discriminate]);
  cbn [mbind option_bind] in Hb; injection Hb as <-;
  first [reflexivity | congruence].

Lemma keeps_payloadFormatIndicator : forall fuel a p a',
  qr_body fuel a p = Some a' -> tag p <> js "00" ->
  p_payloadFormatIndicator a' = p_payloadFormatIndicator a.
Proof. keeps_field. Qed.

Lemma keeps_pointOfInitiationMethod : forall fuel a p a',
  qr_body fuel a p = Some a' -> tag p <> js "01" ->
  p_pointOfInitiationMethod a' = p_pointOfInitiationMethod a.
Proof. keeps_field. Qed.

Lemma keeps_merchantAccountInfo : forall fuel a p a',
  qr_body fuel a p = Some a' -> tag p <> js "44" ->
  p_merchantAccountInfo a' = p_merchantAccountInfo a.
Proof. keeps_field. Qed.

Lemma keeps_merchantId : forall fuel a p a',
  qr_body fuel a p = Some a' -> tag p <> js "44" ->
  p_merchantId a' = p_merchantId a.
Proof. keeps_field. Qed.

Lemma keeps_merchantCategoryCode : forall fuel a p a',
  qr_body fuel a p = Some a' -> tag p <> js "52" ->
  p_merchantCategoryCode a' = p_merchantCategoryCode a.
Proof. keeps_field. Qed.

Lemma keeps_transactionCurrency : forall fuel a p a',
  qr_body fuel a p = Some a' -> tag p <> js "53" ->
  p_transactionCurrency a' = p_transactionCurrency a.
Proof. keeps_field. Qed.

Lemma keeps_countryCode : forall fuel a p a',
  qr_body fuel a p = Some a' -> tag p <> js "58" ->
  p_countryCode a' = p_countryCode a.
Proof. keeps_field. Qed.

Lemma keeps_merchantName : forall fuel a p a',
  qr_body fuel a p = Some a' -> tag p <> js "59" ->
  p_merchantName a' = p_merchantName a.
Proof. keeps_field. Qed.

Lemma keeps_merchantCity : forall fuel a p a',
  qr_body fuel a p = Some a' -> tag p <> js "60" ->
  p_merchantCity a' = p_merchantCity a.
Proof. keeps_field. Qed.

Lemma keeps_additionalData : forall fuel a p a',
  qr_body fuel a p = Some a' -> tag p <> js "64" ->
  p_additionalData a' = p_additionalData a.
Proof. keeps_field. Qed.

Lemma keeps_crc : forall fuel a p a',
  qr_body fuel a p = Some a' -> tag p <> js "63" ->
  p_crc a' = p_crc a.
Proof. keeps_field. Qed.

(** C6 (counterexample).  The same input decoded over two different
    previous Records gives two different Records: the field of a tag that
    does not occur in the input (here 59, the merchant name) is taken from
    the previous Record. *)
Lemma decode_depends_on_previous_record :
  let other :=
    mkEmvoQrData (js "01") (js "12") [] [] (js "0000") (js "840") (js "US")
      (js "ACME") (js "NYC") (mkAdditionalData [] [] []) [] in
  (merchantName <$> parseQrString 5 initialFormData (js "5802FR"))
    = Some (js "KONA") /\
  (merchantName <$> parseQrString 5 other (js "5802FR")) = Some (js "ACME").
Proof. vm_compute. split; reflexivity. Qed.

(** ** The decoder: unknown tags *)

Lemma encodeTLVs_app l1 l2 :
  encodeTLVs (l1 ++ l2) = encodeTLVs l1 ++ encodeTLVs l2.
Proof. unfold encodeTLVs. rewrite map_app, concat_app. reflexivity. Qed.

Lemma encodeTLVs_cons t v l :
  encodeTLVs ((t, v) :: l) = createTLV t v ++ encodeTLVs l.
Proof. reflexivity. Qed.

Lemma run_qr_app fuel l1 : forall l2 i pd,
  run_parsed (qr_body fuel) (parsed_list i (l1 ++ l2)) pd =
    match run_parsed (qr_body fuel) (parsed_list 0 l1) pd with
    | None => None
    | Some pd1 => run_parsed (qr_body fuel) (parsed_list 0 l2) pd1
    end.
Proof.
  induction l1 as [|tv l1 IH]; intros l2 i pd.
  - cbn [app parsed_list run_parsed]. apply run_qr_index.
  - cbn [app parsed_list run_parsed].
    rewrite (qr_body_index fuel pd i 0).
    destruct (qr_body fuel pd (parsed_at 0 tv)) as [pd1|]; [|reflexivity].
    rewrite IH. rewrite (run_qr_index fuel l1 (0 + 4 + js_length tv.2) 0).
    reflexivity.
Qed.

(** C8.  An unrecognized two-character tag among well-formed TLVs does not
    make decoding fail: its value is skipped, and the call returns the very
    Record it returns for the input without that TLV, so that the TLVs after
    it are parsed as they would be without it. *)
Theorem unknown_tag_is_skipped (pre post : list (jsstring * jsstring))
    (u v : jsstring) (prev : EmvoQrData) :
  Forall wf_top pre -> Forall wf_top post ->
  length u = 2%nat -> u ∉ knownTags -> js_length v <= 99 ->
  exists n r, forall fuel, (n <= fuel)%nat ->
    parseQrString fuel prev
      (encodeTLVs pre ++ createTLV u v ++ encodeTLVs post) = Some r /\
    parseQrString fuel prev (encodeTLVs pre ++ encodeTLVs post) = Some r.
Proof.
  intros Hpre Hpost Hu Hunk Hv.
  destruct (run_qr_wf pre 0 initialParsedData Hpre) as (n1 & pd1 & H1).
  destruct (run_qr_wf post 0 pd1 Hpost) as (n2 & pd2 & H2).
  exists ((n1 `max` n2) `max` S (S (length pre + length post)))%nat.
  exists (mergeFormData prev pd2).
  intros fuel Hfuel.
  assert (Hflat : Forall wf_tlv (pre ++ (u, v) :: post)).
  { apply Forall_app. split; [apply wf_top_flat, Hpre|].
    apply Forall_cons. split; [split; assumption|apply wf_top_flat, Hpost]. }
  assert (Hflat' : Forall wf_tlv (pre ++ post)).
  { apply Forall_app. split; apply wf_top_flat; assumption. }
  unfold parseQrString. split.
  - rewrite <- encodeTLVs_cons, <- encodeTLVs_app.
    rewrite <- (app_nil_r (encodeTLVs _)).
    rewrite parseQrData_wf;
      [|exact Hflat|unfold js_length; cbn; lia
       |rewrite length_app; cbn [length]; lia].
    rewrite run_qr_app, H1 by lia.
    cbn [parsed_list run_parsed].
    rewrite qr_body_unknown by exact Hunk.
    rewrite (run_qr_index fuel post _ 0), H2 by lia. reflexivity.
  - rewrite <- encodeTLVs_app.
    rewrite <- (app_nil_r (encodeTLVs _)).
    rewrite parseQrData_wf;
      [|exact Hflat'|unfold js_length; cbn; lia|rewrite length_app; lia].
    rewrite run_qr_app, H1, H2 by lia. reflexivity.
Qed.

(** Tag 99 between the TLVs 00 and 58. *)
Lemma unknown_tag_is_skipped_witness :
  exists n r, forall fuel, (n <= fuel)%nat ->
    parseQrString fuel initialFormData
      (encodeTLVs [(js "00", js "01")] ++ createTLV (js "99") (js "xyz")
       ++ encodeTLVs [(js "58", js "FR")]) = Some r /\
    parseQrString fuel initialFormData
      (encodeTLVs [(js "00", js "01")] ++ encodeTLVs [(js "58", js "FR")])
      = Some r.
Proof.
  apply (unknown_tag_is_skipped [(js "00", js "01")] [(js "58", js "FR")]
           (js "99") (js "xyz") initialFormData).
  - apply Forall_cons; split; [|apply Forall_nil_2].
    apply wf_top_plain; [reflexivity|unfold js_length; cbn; lia
                        |discriminate|discriminate].
  - apply Forall_cons; split; [|apply Forall_nil_2].
    apply wf_top_plain; [reflexivity|unfold js_length; cbn; lia
                        |discriminate|discriminate].
  - reflexivity.
  - unfold knownTags. rewrite !not_elem_of_cons.
    repeat split; try discriminate. apply not_elem_of_nil.
  - unfold js_length; cbn; lia.
Defined.

(** ** The decoder: trailing fragments *)

(** C9 (counterexample).  The walk also stops silently with a full header
    left: on "00zz1234" eight characters remain at index 0, [parseTLV]
    returns [null] because the length is not numeric, and both loops end
    without reporting anything. *)
Lemma walk_stops_with_a_header_left :
  js_length (js "00zz1234") - 0 >= 4 /\
  parseTLV (js "00zz1234") 0 = None /\
  parseSubTLVs 5 (js "00zz1234") = Some ∅ /\
  tlv_trace 5 (js "00zz1234") 0 = Some [] /\
  is_Some (parseQrString 5 initialFormData (js "00zz1234")).
Proof.
  split; [vm_compute; discriminate|].
  split; [vm_compute; reflexivity|].
  split; [vm_compute; reflexivity|].
  split; [vm_compute; reflexivity|].
  vm_compute. eexists. reflexivity.
Qed.

(** C9 (amended).  The walk stops silently whenever fewer than four
    characters remain (it also stops silently where [parseTLV] rejects a
    header): after a well-formed sequence a trailing fragment of at most
    three characters is dropped, the walk visits exactly the TLVs before it
    and both loops return what they return without the fragment. *)
Theorem trailing_fragment_is_dropped (l : list (jsstring * jsstring))
    (frag : jsstring) (fuel : nat) :
  Forall wf_tlv l -> js_length frag <= 3 -> (length l < fuel)%nat ->
  (forall data index,
     js_length data - index < 4 -> parseTLV data index = None) /\
  tlv_trace fuel (encodeTLVs l ++ frag) 0 = Some (parsed_list 0 l) /\
  parseSubTLVs fuel (encodeTLVs l ++ frag) = parseSubTLVs fuel (encodeTLVs l) /\
  is_Some (parseSubTLVs fuel (encodeTLVs l ++ frag)) /\
  parseQrData fuel (encodeTLVs l ++ frag) = parseQrData fuel (encodeTLVs l).
Proof.
  intros Hwf Hfrag Hfuel.
  assert (Hnil : js_length [] <= 3) by (unfold js_length; cbn; lia).
  split; [apply parseTLV_short|]. split.
  { rewrite <- (app_nil_l (encodeTLVs l ++ frag)).
    change 0 with (js_length []). apply tlv_trace_wf; assumption. }
  split.
  { rewrite <- (app_nil_r (encodeTLVs l)) at 2.
    rewrite !parseSubTLVs_wf by assumption. reflexivity. }
  split.
  { rewrite parseSubTLVs_wf by assumption. eexists. reflexivity. }
  rewrite <- (app_nil_r (encodeTLVs l)) at 2.
  rewrite !parseQrData_wf by assumption. reflexivity.
Qed.

(** Two sub-TLVs followed by the two characters "02". *)
Lemma trailing_fragment_is_dropped_witness :
  parseSubTLVs 5 (encodeTLVs [(js "00", js "KO"); (js "01", js "abc")]
                  ++ js "02") =
  parseSubTLVs 5 (encodeTLVs [(js "00", js "KO"); (js "01", js "abc")]).
Proof.
  apply (trailing_fragment_is_dropped
           [(js "00", js "KO"); (js "01", js "abc")] (js "02") 5).
  - repeat (apply Forall_cons; split;
            [split; [reflexivity|unfold js_length; cbn; lia]|]).
    apply Forall_nil_2.
  - unfold js_length; cbn; lia.
  - cbn; lia.
Defined.

(** ** Round trip *)

Lemma js_or_nil_r v : js_or v [] = v.
Proof. destruct v; reflexivity. Qed.

Lemma encode_as_TLVs r : encode r = encodeTLVs (topLevelTLVs r).
Proof.
  unfold encode, generateQrString, qrString, topLevelTLVs, encodeTLVs.
  cbn [map concat fst snd].
  rewrite !app_nil_r, !app_nil_l, <- !app_assoc. reflexivity.
Qed.

(** The encoder reads nine fields of the Record only. *)
Lemma encode_ext r1 r2 :
  payloadFormatIndicator r1 = payloadFormatIndicator r2 ->
  pointOfInitiationMethod r1 = pointOfInitiationMethod r2 ->
  merchantId r1 = merchantId r2 ->
  merchantCategoryCode r1 = merchantCategoryCode r2 ->
  transactionCurrency r1 = transactionCurrency r2 ->
  countryCode r1 = countryCode r2 ->
  merchantName r1 = merchantName r2 ->
  merchantCity r1 = merchantCity r2 ->
  additionalData r1 = additionalData r2 ->
  encode r1 = encode r2.
Proof.
  intros H1 H2 H3 H4 H5 H6 H7 H8 H9.
  unfold encode, generateQrString, qrString.
  rewrite H1, H2, H3, H4, H5, H6, H7, H8, H9. reflexivity.
Qed.

(** The string starts with the TLVs 00, 01 and 44. *)
Lemma encode_prefix r :
  exists rest,
    encode r =
      createTLV (js "00") (payloadFormatIndicator r)
      ++ createTLV (js "01") (pointOfInitiationMethod r)
      ++ createTLV (js "44") (generateMerchantAccountInfo (merchantId r))
      ++ rest.
Proof.
  eexists. unfold encode, generateQrString, qrString.
  rewrite !app_nil_l, <- !app_assoc. reflexivity.
Qed.

Lemma encodeTLVs_two t1 v1 t2 v2 :
  createTLV t1 v1 ++ createTLV t2 v2 = encodeTLVs [(t1, v1); (t2, v2)] ++ [].
Proof.
  unfold encodeTLVs. cbn [map concat fst snd]. rewrite !app_nil_r.
  reflexivity.
Qed.

Lemma encodeTLVs_three t1 v1 t2 v2 t3 v3 :
  createTLV t1 v1 ++ createTLV t2 v2 ++ createTLV t3 v3 =
    encodeTLVs [(t1, v1); (t2, v2); (t3, v3)] ++ [].
Proof.
  unfold encodeTLVs. cbn [map concat fst snd]. rewrite !app_nil_r.
  reflexivity.
Qed.

Ltac switch_to_case :=
  unfold qr_body; cbn [tag value parsed_at fst snd];
  repeat (rewrite decide_False by discriminate);
  rewrite decide_True by reflexivity.

Lemma parseSubTLVs_account fuel mid :
  js_length mid <= 99 -> (3 <= fuel)%nat ->
  parseSubTLVs fuel (generateMerchantAccountInfo mid) =
    Some (<[js "01" := js_or mid (js "410790020044601")]>
            (<[js "00" := mid]> ∅)).
Proof.
  intros Hmid Hfuel. unfold generateMerchantAccountInfo.
  rewrite encodeTLVs_two, parseSubTLVs_wf; [reflexivity| | |].
  - repeat (apply Forall_cons; split; [split; [reflexivity|]|]);
      [exact Hmid| |apply Forall_nil_2].
    cbn [snd]. destruct mid; [unfold js_length; cbn; lia|exact Hmid].
  - unfold js_length; cbn; lia.
  - cbn [length]. lia.
Qed.

Lemma parseSubTLVs_additional fuel a b c :
  js_length a <= 99 -> js_length b <= 99 -> js_length c <= 99 ->
  (4 <= fuel)%nat ->
  parseSubTLVs fuel (generateAdditionalDataTLV (mkAdditionalData a b c)) =
    Some (<[js "02" := c]> (<[js "01" := b]> (<[js "00" := a]> ∅))).
Proof.
  intros Ha Hb Hc Hfuel. unfold generateAdditionalDataTLV.
  cbn [ad00 ad01 ad02].
  rewrite encodeTLVs_three, parseSubTLVs_wf; [reflexivity| | |].
  - repeat (apply Forall_cons; split; [split; [reflexivity|assumption]|]).
    apply Forall_nil_2.
  - unfold js_length; cbn; lia.
  - cbn [length]. lia.
Qed.

Lemma qr_body_44 fuel pd i mid :
  js_length mid <= 99 -> (3 <= fuel)%nat ->
  qr_body fuel pd (parsed_at i (js "44", generateMerchantAccountInfo mid)) =
    Some (set_merchantAccount pd (generateMerchantAccountInfo mid) mid).
Proof.
  intros Hmid Hfuel. switch_to_case.
  rewrite parseSubTLVs_account by assumption.
  cbn [mbind option_bind].
  rewrite lookup_insert_ne by discriminate.
  rewrite lookup_insert_eq. cbn [js_or_undef].
  rewrite js_or_nil_r. reflexivity.
Qed.

Lemma qr_body_64 fuel pd i a b c :
  js_length a <= 99 -> js_length b <= 99 -> js_length c <= 99 ->
  (4 <= fuel)%nat ->
  qr_body fuel pd
    (parsed_at i (js "64", generateAdditionalDataTLV (mkAdditionalData a b c)))
  = Some (set_additionalData pd (mkAdditionalData a b c)).
Proof.
  intros Ha Hb Hc Hfuel. switch_to_case.
  rewrite parseSubTLVs_additional by assumption.
  cbn [mbind option_bind].
  rewrite (lookup_insert_ne _ (js "02") (js "00")) by discriminate.
  rewrite (lookup_insert_ne _ (js "01") (js "00")) by discriminate.
  rewrite (lookup_insert_ne _ (js "02") (js "01")) by discriminate.
  rewrite !lookup_insert_eq. cbn [js_or_undef].
  rewrite !js_or_nil_r. reflexivity.
Qed.

Lemma qr_body_00 fuel pd i v :
  qr_body fuel pd (parsed_at i (js "00", v))
  = Some (set_payloadFormatIndicator pd v).
Proof. switch_to_case. reflexivity. Qed.

Lemma qr_body_01 fuel pd i v :
  qr_body fuel pd (parsed_at i (js "01", v))
  = Some (set_pointOfInitiationMethod pd v).
Proof. switch_to_case. reflexivity. Qed.

Lemma qr_body_52 fuel pd i v :
  qr_body fuel pd (parsed_at i (js "52", v))
  = Some (set_merchantCategoryCode pd v).
Proof. switch_to_case. reflexivity. Qed.

Lemma qr_body_53 fuel pd i v :
  qr_body fuel pd (parsed_at i (js "53", v))
  = Some (set_transactionCurrency pd v).
Proof. switch_to_case. reflexivity. Qed.

Lemma qr_body_58 fuel pd i v :
  qr_body fuel pd (parsed_at i (js "58", v)) = Some (set_countryCode pd v).
Proof. switch_to_case. reflexivity. Qed.

Lemma qr_body_59 fuel pd i v :
  qr_body fuel pd (parsed_at i (js "59", v)) = Some (set_merchantName pd v).
Proof. switch_to_case. reflexivity. Qed.

Lemma qr_body_60 fuel pd i v :
  qr_body fuel pd (parsed_at i (js "60", v)) = Some (set_merchantCity pd v).
Proof. switch_to_case. reflexivity. Qed.

Lemma qr_body_63 fuel pd i v :
  qr_body fuel pd (parsed_at i (js "63", v)) = Some (set_crc pd v).
Proof. switch_to_case. reflexivity. Qed.

Lemma js_length_crc data : js_length (calculateCRC16 data) = 4.
Proof.
  unfold js_length. rewrite (proj1 (calculateCRC16_shape data)). reflexivity.
Qed.

(** C7.  For a Record whose every field has at most 99 characters, the two
    composite fields included, decoding the encoded string returns (over any
    previous Record, and as soon as the walk is given its eleven iterations)
    a Record that encodes to the very same string. *)
Theorem roundtrip_fields_within_99 (r prev : EmvoQrData) (fuel : nat) :
  record_fields_within_99 r -> (11 <= fuel)%nat ->
  exists r',
    parseQrString fuel prev (encode r) = Some r' /\ encode r' = encode r.
Proof.
  intros Hf Hfuel.
  unfold record_fields_within_99 in Hf. rewrite !Forall_cons in Hf.
  destruct Hf as (Hpfi & Hpoi & Hacc & Hmid & Hmcc & Hcur & Hcc & Hname
                  & Hcity & Hadd & H00 & H01 & H02 & _).
  destruct r as [pfi poi mai mid mcc cur cc name city [a b c] crc0].
  cbn [payloadFormatIndicator pointOfInitiationMethod merchantAccountInfo
       merchantId merchantCategoryCode transactionCurrency countryCode
       merchantName merchantCity additionalData crc ad00 ad01 ad02] in *.
  set (r := mkEmvoQrData pfi poi mai mid mcc cur cc name city
              (mkAdditionalData a b c) crc0).
  assert (Hwf : Forall wf_tlv (topLevelTLVs r)).
  { unfold topLevelTLVs, r.
    cbn [payloadFormatIndicator pointOfInitiationMethod merchantAccountInfo
         merchantId merchantCategoryCode transactionCurrency countryCode
         merchantName merchantCity additionalData crc].
    repeat (apply Forall_cons; split;
            [split; [reflexivity|cbn [snd]; try assumption]|]);
      [|apply Forall_nil_2].
    rewrite js_length_crc. lia. }
  assert (Hparse : exists pd,
            parseQrData fuel (encode r) = Some pd /\
            p_payloadFormatIndicator pd = Some pfi /\
            p_pointOfInitiationMethod pd = Some poi /\
            p_merchantId pd = Some mid /\
            p_merchantCategoryCode pd = Some mcc /\
            p_transactionCurrency pd = Some cur /\
            p_countryCode pd = Some cc /\
            p_merchantName pd = Some name /\
            p_merchantCity pd = Some city /\
            p_additionalData pd = Some (mkAdditionalData a b c)).
  { eexists. split.
    - rewrite encode_as_TLVs, <- (app_nil_r (encodeTLVs _)).
      rewrite parseQrData_wf;
        [|exact Hwf|unfold js_length; cbn; lia|cbn [length topLevelTLVs]; lia].
      unfold topLevelTLVs, r.
      cbn [payloadFormatIndicator pointOfInitiationMethod merchantAccountInfo
           merchantId merchantCategoryCode transactionCurrency countryCode
           merchantName merchantCity additionalData crc].
      cbn [parsed_list run_parsed].
      rewrite qr_body_00, qr_body_01, qr_body_44 by (assumption || lia).
      rewrite qr_body_52, qr_body_53, qr_body_58, qr_body_59, qr_body_60.
      rewrite qr_body_64 by (assumption || lia).
      rewrite qr_body_63. reflexivity.
    - repeat split. }
  destruct Hparse as (pd & Hpd & E1 & E2 & E3 & E4 & E5 & E6 & E7 & E8 & E9).
  exists (mergeFormData prev pd). split.
  - unfold parseQrString. rewrite Hpd. reflexivity.
  - apply encode_ext; unfold mergeFormData, r;
      cbn [payloadFormatIndicator pointOfInitiationMethod merchantAccountInfo
           merchantId merchantCategoryCode transactionCurrency countryCode
           merchantName merchantCity additionalData crc].
    + rewrite E1. reflexivity.
    + rewrite E2. reflexivity.
    + rewrite E3. reflexivity.
    + rewrite E4. reflexivity.
    + rewrite E5. reflexivity.
    + rewrite E6. reflexivity.
    + rewrite E7. reflexivity.
    + rewrite E8. reflexivity.
    + rewrite E9. reflexivity.
Qed.

(** The initial form data with a merchant name of 99 characters, decoded
    over the initial form data: every field is within 99 characters (the
    merchant name reaches the bound) and the string round-trips. *)
Lemma roundtrip_fields_within_99_witness :
  record_fields_within_99
    (handleInputChange F_merchantName (replicate 99 75) initialFormData) /\
  exists r',
    parseQrString 11 initialFormData
      (encode (handleInputChange F_merchantName (replicate 99 75)
                 initialFormData)) = Some r' /\
    encode r' =
      encode (handleInputChange F_merchantName (replicate 99 75)
                initialFormData).
Proof.
  assert (Hf : record_fields_within_99
                 (handleInputChange F_merchantName (replicate 99 75)
                    initialFormData)).
  { unfold record_fields_within_99, handleInputChange, initialFormData.
    cbn [payloadFormatIndicator pointOfInitiationMethod merchantAccountInfo
         merchantId merchantCategoryCode transactionCurrency countryCode
         merchantName merchantCity additionalData crc ad00 ad01 ad02].
    repeat (apply Forall_cons; split; [vm_compute; discriminate|]).
    apply Forall_nil_2. }
  split; [exact Hf|].
  exact (roundtrip_fields_within_99 _ initialFormData 11 Hf (le_n 11)).
Defined.


(** * Further properties of the codec *)

(** ** The checksum field of the encoded string *)

Lemma createTLV_63 c :
  createTLV (js "63") (calculateCRC16 c) = js "6304" ++ calculateCRC16 c.
Proof.
  rewrite createTLV_two_digits by (rewrite js_length_crc; lia).
  rewrite js_length_crc. reflexivity.
Qed.

(** The string is a prefix followed by the checksum of that prefix. *)
Lemma encode_split r : exists pre, encode r = pre ++ calculateCRC16 pre.
Proof.
  unfold encode, generateQrString, qrString.
  match goal with
  | |- context [calculateCRC16 ?x] => set (pre := x)
  end.
  exists pre. rewrite createTLV_63.
  unfold pre. rewrite <- !app_assoc. reflexivity.
Qed.

(** X2.  Whatever the Record, the last four characters of the encoded
    string are the checksum of everything before them: a reader that
    recomputes the checksum over the string without its last four characters
    finds the stored one. *)
Theorem encode_checksum_verifies (r : EmvoQrData) :
  let s := encode r in
  (4 <= length s)%nat /\
  calculateCRC16 (take (length s - 4) s) = drop (length s - 4) s.
Proof.
  destruct (encode_split r) as [pre Hs]. cbv zeta. rewrite Hs.
  pose proof (proj1 (calculateCRC16_shape pre)) as H4.
  rewrite length_app, H4.
  replace (length pre + 4 - 4)%nat with (length pre) by lia.
  rewrite take_app_length, drop_app_length. split; [lia|reflexivity].
Qed.

(** ** Decoding an encoded Record *)

Lemma encodeTLVs_snoc l t v :
  encodeTLVs (l ++ [(t, v)]) = encodeTLVs l ++ createTLV t v.
Proof.
  rewrite encodeTLVs_app. unfold encodeTLVs at 2.
  cbn [map concat fst snd]. rewrite app_nil_r. reflexivity.
Qed.

(** The last four characters of the string, as [topLevelTLVs] names them. *)
Lemma encode_last_four r :
  drop (length (encode r) - 4) (encode r) =
    default [] (snd <$> last (topLevelTLVs r)).
Proof.
  rewrite encode_as_TLVs. unfold topLevelTLVs.
  match goal with
  | |- context [calculateCRC16 ?x] => set (pre := x)
  end.
  cbn [last fmap option_fmap option_map snd default].
  match goal with
  | |- context [encodeTLVs (?a :: ?b :: ?c :: ?d :: ?e :: ?f :: ?g :: ?h
                              :: ?i :: [?j])] =>
      change (a :: b :: c :: d :: e :: f :: g :: h :: i :: [j])
        with ([a; b; c; d; e; f; g; h; i] ++ [j])
  end.
  rewrite encodeTLVs_snoc, createTLV_63. fold pre.
  rewrite app_assoc.
  pose proof (proj1 (calculateCRC16_shape pre)) as H4.
  rewrite length_app, H4.
  match goal with
  | |- drop (length ?x + 4 - 4) _ = _ =>
      replace (length x + 4 - 4)%nat with (length x) by lia
  end.
  apply drop_app_length.
Qed.

(** The decoder on an encoder output. *)
Lemma parseQrString_of_encode (r prev : EmvoQrData) (fuel : nat) :
  fields_within_99 r -> composites_within_99 r -> (11 <= fuel)%nat ->
  parseQrString fuel prev (encode r) =
    Some (mkEmvoQrData
            (payloadFormatIndicator r) (pointOfInitiationMethod r)
            (generateMerchantAccountInfo (merchantId r)) (merchantId r)
            (merchantCategoryCode r) (transactionCurrency r) (countryCode r)
            (merchantName r) (merchantCity r) (additionalData r)
            (drop (length (encode r) - 4) (encode r))).
Proof.
  intros Hf [Hacc Hadd] Hfuel.
  rewrite encode_last_four.
  unfold fields_within_99 in Hf. rewrite !Forall_cons in Hf.
  destruct Hf as (Hpfi & Hpoi & _ & Hmid & Hmcc & Hcur & Hcc & Hname & Hcity
                  & H00 & H01 & H02 & _).
  destruct r as [pfi poi mai mid mcc cur cc name city [a b c] crc0].
  cbn [payloadFormatIndicator pointOfInitiationMethod merchantAccountInfo
       merchantId merchantCategoryCode transactionCurrency countryCode
       merchantName merchantCity additionalData crc ad00 ad01 ad02] in *.
  set (r := mkEmvoQrData pfi poi mai mid mcc cur cc name city
              (mkAdditionalData a b c) crc0).
  assert (Hwf : Forall wf_tlv (topLevelTLVs r)).
  { unfold topLevelTLVs, r.
    cbn [payloadFormatIndicator pointOfInitiationMethod merchantAccountInfo
         merchantId merchantCategoryCode transactionCurrency countryCode
         merchantName merchantCity additionalData crc].
    repeat (apply Forall_cons; split;
            [split; [reflexivity|cbn [snd]; try assumption]|]);
      [|apply Forall_nil_2].
    rewrite js_length_crc. lia. }
  unfold parseQrString.
  rewrite encode_as_TLVs, <- (app_nil_r (encodeTLVs _)).
  rewrite parseQrData_wf;
    [|exact Hwf|unfold js_length; cbn; lia|cbn [length topLevelTLVs]; lia].
  unfold topLevelTLVs, r.
  cbn [payloadFormatIndicator pointOfInitiationMethod merchantAccountInfo
       merchantId merchantCategoryCode transactionCurrency countryCode
       merchantName merchantCity additionalData crc].
  cbn [parsed_list run_parsed].
  rewrite qr_body_00, qr_body_01, qr_body_44 by (assumption || lia).
  rewrite qr_body_52, qr_body_53, qr_body_58, qr_body_59, qr_body_60.
  rewrite qr_body_64 by (assumption || lia).
  rewrite qr_body_63. reflexivity.
Qed.

(** X1.  For a Record whose fields and whose two composite values have at
    most 99 characters, decoding the encoded string returns, whatever the
    previous Record, exactly the nine encoded fields of the Record, the
    merchant account information as it was encoded, and as [crc] the last
    four characters of the string: nothing of the previous Record is left. *)
Theorem decode_encode_recovers_fields (r prev : EmvoQrData) (fuel : nat) :
  fields_within_99 r -> composites_within_99 r -> (11 <= fuel)%nat ->
  parseQrString fuel prev (encode r) =
    Some (mkEmvoQrData
            (payloadFormatIndicator r) (pointOfInitiationMethod r)
            (generateMerchantAccountInfo (merchantId r)) (merchantId r)
            (merchantCategoryCode r) (transactionCurrency r) (countryCode r)
            (merchantName r) (merchantCity r) (additionalData r)
            (drop (length (encode r) - 4) (encode r))).
Proof. apply parseQrString_of_encode. Qed.

(** The initial form data. *)
Lemma decode_encode_recovers_fields_witness :
  merchantId
    <$> parseQrString 11
          (handleInputChange F_merchantId (js "other") initialFormData)
          (encode initialFormData)
  = Some (js "com.konai.konacard").
Proof.
  assert (Hf : fields_within_99 initialFormData).
  { unfold fields_within_99, initialFormData.
    cbn [payloadFormatIndicator pointOfInitiationMethod merchantAccountInfo
         merchantId merchantCategoryCode transactionCurrency countryCode
         merchantName merchantCity additionalData crc ad00 ad01 ad02].
    repeat (apply Forall_cons; split; [vm_compute; discriminate|]).
    apply Forall_nil_2. }
  assert (Hc : composites_within_99 initialFormData)
    by (split; vm_compute; discriminate).
  rewrite (decode_encode_recovers_fields initialFormData
             (handleInputChange F_merchantId (js "other") initialFormData) 11
             Hf Hc (le_n 11)).
  reflexivity.
Defined.

(** ** What [parseTLV] returns *)

Lemma substring_in_range s a b :
  0 <= a <= b -> b <= js_length s ->
  substring s a b = take (Z.to_nat (b - a)) (drop (Z.to_nat a) s).
Proof.
  intros Hab Hb. unfold substring, clamp.
  rewrite (Z.max_l a), (Z.max_l b) by lia.
  rewrite (Z.min_l a), (Z.min_l b) by lia.
  rewrite (Z.min_l a), (Z.max_r a) by lia. reflexivity.
Qed.

Lemma substring_length s a b :
  0 <= a <= b -> b <= js_length s -> js_length (substring s a b) = b - a.
Proof.
  intros Hab Hb. rewrite substring_in_range by assumption.
  unfold js_length in *. rewrite length_take, length_drop. lia.
Qed.

(** A string cut at [a] and [b]. *)
Lemma substring_cut s a b :
  0 <= a <= b -> b <= js_length s ->
  drop (Z.to_nat a) s = substring s a b ++ drop (Z.to_nat b) s.
Proof.
  intros Hab Hb. rewrite substring_in_range by assumption.
  rewrite <- (take_drop (Z.to_nat (b - a)) (drop (Z.to_nat a) s)) at 1.
  rewrite drop_drop. do 2 f_equal. lia.
Qed.

(** X4.  A successful [parseTLV] at a non-negative index with a
    non-negative length returns what is in the input: the input is some
    prefix of [startIndex] characters, then the two-character tag, a
    two-character header that [parseInt] reads as the returned length, the
    value of exactly that many characters, and a remainder that starts at
    [nextIndex], which does not exceed the length of the input. *)
Theorem parseTLV_sound (data : jsstring) (startIndex : Z) (p : ParsedTLV) :
  parseTLV data startIndex = Some p ->
  0 <= startIndex -> 0 <= tlvLength p ->
  exists pre hdr post,
    data = pre ++ tag p ++ hdr ++ value p ++ post /\
    js_length pre = startIndex /\
    js_length (tag p) = 2 /\ js_length hdr = 2 /\
    parseInt hdr = Some (tlvLength p) /\
    js_length (value p) = tlvLength p /\
    nextIndex p = startIndex + 4 + tlvLength p /\
    nextIndex p <= js_length data.
Proof.
  intros Hp Hi Hn. unfold parseTLV in Hp. cbv zeta in Hp.
  destruct (startIndex >=? js_length data - 3) eqn:E1; [discriminate|].
  destruct (parseInt (substring data (startIndex + 2) (startIndex + 4)))
    as [n|] eqn:Eint; [|discriminate].
  destruct (startIndex + 4 + n >? js_length data) eqn:E2; [discriminate|].
  injection Hp as <-. cbn [tag tlvLength value nextIndex] in *.
  exists (take (Z.to_nat startIndex) data),
    (substring data (startIndex + 2) (startIndex + 4)),
    (drop (Z.to_nat (startIndex + 4 + n)) data).
  split.
  { rewrite <- (take_drop (Z.to_nat startIndex) data) at 1. f_equal.
    rewrite (substring_cut data startIndex (startIndex + 2)) by lia. f_equal.
    rewrite (substring_cut data (startIndex + 2) (startIndex + 4)) by lia.
    f_equal.
    apply (substring_cut data (startIndex + 4) (startIndex + 4 + n)); lia. }
  split.
  { unfold js_length in *. rewrite length_take. lia. }
  rewrite !substring_length by lia.
  repeat split; try lia. exact Eint.
Qed.

(** The TLV "5802KR" found at index 6. *)
Lemma parseTLV_sound_witness :
  exists pre hdr post,
    js "000201" ++ js "5802KR" ++ js "6304"
      = pre ++ js "58" ++ hdr ++ js "KR" ++ post /\
    js_length pre = 6 /\ parseInt hdr = Some 2.
Proof.
  destruct (parseTLV_sound (js "0002015802KR6304") 6
              (mkParsedTLV (js "58") 2 (js "KR") 12)
              ltac:(vm_compute; reflexivity) ltac:(lia) ltac:(cbn; lia))
    as (pre & hdr & post & Hd & Hpre & _ & _ & Hint & _).
  exists pre, hdr, post. cbn [tag value tlvLength] in *.
  split; [exact Hd|]. split; [exact Hpre|exact Hint].
Defined.

(** ** Unique decodability *)

Lemma parsed_list_pairs l : forall i,
  map (fun p => (tag p, value p)) (parsed_list i l) = l.
Proof.
  induction l as [|[t v] l IH]; intros i; [reflexivity|].
  cbn [parsed_list map parsed_at tag value fst snd]. rewrite IH. reflexivity.
Qed.

(** X3.  Well-formed TLV sequences are uniquely decodable: two lists of
    TLVs with two-character tags and values of at most 99 characters that
    encode to the same string are the same list, and the walk over the
    string visits exactly that list. *)
Theorem encodeTLVs_injective (l1 l2 : list (jsstring * jsstring)) :
  Forall wf_tlv l1 -> Forall wf_tlv l2 ->
  encodeTLVs l1 = encodeTLVs l2 -> l1 = l2.
Proof.
  intros H1 H2 Heq.
  assert (Htr : forall l, Forall wf_tlv l ->
            tlv_trace (S (length l1 `max` length l2)) (encodeTLVs l) 0
            = Some (parsed_list 0 l)
            \/ (length l1 `max` length l2 < length l)%nat).
  { intros l Hl.
    destruct (decide (length l <= length l1 `max` length l2)%nat);
      [left|right; lia].
    rewrite <- (app_nil_r (encodeTLVs l)), <- (app_nil_l (encodeTLVs l ++ [])).
    change 0 with (js_length []).
    apply tlv_trace_wf; [exact Hl|unfold js_length; cbn; lia|lia]. }
  destruct (Htr l1 H1) as [T1|]; [|lia].
  destruct (Htr l2 H2) as [T2|]; [|lia].
  rewrite Heq, T2 in T1. injection T1 as T1.
  rewrite <- (parsed_list_pairs l1 0), <- (parsed_list_pairs l2 0), T1.
  reflexivity.
Qed.

(** Three TLVs, one with an empty value and one whose value reads as a TLV
    itself, written in two ways. *)
Lemma encodeTLVs_injective_witness :
  [(js "00", js "KO"); (js "59", []); (js "62", js "0102AB")] =
  [([48; 48], [75; 79]); ([53; 57], []); ([54; 50], [48; 49; 48; 50; 65; 66])].
Proof.
  apply (encodeTLVs_injective
           [(js "00", js "KO"); (js "59", []); (js "62", js "0102AB")]
           [([48; 48], [75; 79]); ([53; 57], []);
            ([54; 50], [48; 49; 48; 50; 65; 66])]).
  - repeat (apply Forall_cons; split;
            [split; [reflexivity|unfold js_length; cbn; lia]|]).
    apply Forall_nil_2.
  - repeat (apply Forall_cons; split;
            [split; [reflexivity|unfold js_length; cbn; lia]|]).
    apply Forall_nil_2.
  - vm_compute. reflexivity.
Defined.

(** ** Termination without a minus sign *)

Lemma elem_of_take_inv {A} (x : A) n l : x ∈ take n l -> x ∈ l.
Proof.
  revert n. induction l as [|y l IH]; intros [|n] Hx; cbn in Hx;
    try (apply elem_of_nil in Hx; contradiction).
  apply elem_of_cons in Hx as [->|Hx]; [left|right; eapply IH, Hx].
Qed.

Lemma elem_of_drop_inv {A} (x : A) n l : x ∈ drop n l -> x ∈ l.
Proof.
  revert l. induction n as [|n IH]; intros [|y l] Hx; cbn in Hx;
    try assumption.
  right. apply IH, Hx.
Qed.

Lemma elem_of_substring x s a b : x ∈ substring s a b -> x ∈ s.
Proof.
  unfold substring. intros Hx.
  eapply elem_of_drop_inv, elem_of_take_inv, Hx.
Qed.

Lemma elem_of_trimStart x s : x ∈ trimStart s -> x ∈ s.
Proof.
  induction s as [|c s IH]; cbn [trimStart]; [tauto|].
  destruct (isStrWhiteSpaceChar c); [|tauto].
  intros Hx. right. apply IH, Hx.
Qed.

Lemma parseDigits_nonneg s : forall acc n,
  (forall a, acc = Some a -> 0 <= a) ->
  parseDigits s acc = Some n -> 0 <= n.
Proof.
  induction s as [|c s IH]; intros acc n Hacc Hn; cbn [parseDigits] in Hn.
  - apply Hacc, Hn.
  - unfold digitValue in Hn.
    destruct ((48 <=? c) && (c <=? 57)) eqn:E; [|apply Hacc, Hn].
    refine (IH _ _ _ Hn).
    intros a [= <-]. apply andb_true_iff in E as [E1 E2].
    apply Z.leb_le in E1. apply Z.leb_le in E2.
    destruct acc as [a0|]; cbn [default from_option id];
      [pose proof (Hacc a0 eq_refl)|]; lia.
Qed.

(** [parseInt] by cases on the first character after the white space. *)
Lemma parseInt_cases s :
  parseInt s =
    match trimStart s with
    | [] => None
    | c :: r =>
        if c =? 45 then Z.opp <$> parseDigits r None
        else if c =? 43 then parseDigits r None
        else parseDigits (c :: r) None
    end.
Proof.
  unfold parseInt. destruct (trimStart s) as [|c r]; [reflexivity|].
  destruct c as [|q|q]; [reflexivity| |reflexivity].
  do 6 (destruct q as [q|q|]; try reflexivity).
Qed.

(** Without a minus sign [parseInt] reads no negative number. *)
Lemma parseInt_nonneg s n : 45 ∉ s -> parseInt s = Some n -> 0 <= n.
Proof.
  intros Hs. rewrite parseInt_cases.
  destruct (trimStart s) as [|c r] eqn:E; [discriminate|].
  destruct (c =? 45) eqn:E45.
  { exfalso. apply Hs, elem_of_trimStart. rewrite E.
    apply Z.eqb_eq in E45 as ->. left. }
  destruct (c =? 43); apply parseDigits_nonneg; discriminate.
Qed.

(** Without a minus sign every parsed TLV moves the index forward by at
    least four, stays within the input, and its value has no minus sign. *)
Lemma parseTLV_advances data i p :
  45 ∉ data -> 0 <= i -> parseTLV data i = Some p ->
  i + 4 <= nextIndex p <= js_length data /\
  (45 ∉ value p) /\ js_length (value p) + 4 <= js_length data.
Proof.
  intros Hd Hi Hp. unfold parseTLV in Hp. cbv zeta in Hp.
  destruct (i >=? js_length data - 3) eqn:E1; [discriminate|].
  destruct (parseInt (substring data (i + 2) (i + 4))) as [n|] eqn:Eint;
    [|discriminate].
  destruct (i + 4 + n >? js_length data) eqn:E2; [discriminate|].
  injection Hp as <-. cbn [nextIndex value].
  assert (0 <= n).
  { refine (parseInt_nonneg _ _ _ Eint).
    intros Hin. apply Hd, (elem_of_substring _ _ _ _ Hin). }
  split; [lia|]. split.
  - intros Hin. apply Hd, (elem_of_substring _ _ _ _ Hin).
  - rewrite substring_length by lia. lia.
Qed.

Lemma tlv_trace_terminates fuel : forall data i,
  45 ∉ data -> 0 <= i <= js_length data ->
  js_length data - i < Z.of_nat fuel ->
  exists tr,
    tlv_trace fuel data i = Some tr /\
    Forall (fun p => (45 ∉ value p) /\
                     js_length (value p) + 4 <= js_length data) tr.
Proof.
  induction fuel as [|fuel IH]; intros data i Hd Hi Hfuel; [lia|].
  rewrite tlv_trace_unfold.
  destruct (i <? js_length data) eqn:E; [|exists []; split; [reflexivity|]];
    [|apply Forall_nil_2].
  destruct (parseTLV data i) as [p|] eqn:Ep;
    [|exists []; split; [reflexivity|apply Forall_nil_2]].
  destruct (parseTLV_advances data i p Hd ltac:(lia) Ep)
    as (Hnext & Hv & Hlen).
  destruct (IH data (nextIndex p) Hd ltac:(lia) ltac:(lia)) as (tr & -> & Htr).
  exists (p :: tr). split; [reflexivity|].
  apply Forall_cons. split; [split; assumption|exact Htr].
Qed.

Lemma run_subTlvs_total tr : forall m,
  is_Some (run_parsed subTlvs_body tr m).
Proof.
  induction tr as [|p tr IH]; intros m; [eexists; reflexivity|].
  cbn [run_parsed subTlvs_body]. apply IH.
Qed.

Lemma parseSubTLVs_terminates data fuel :
  45 ∉ data -> (length data < fuel)%nat -> is_Some (parseSubTLVs fuel data).
Proof.
  intros Hd Hfuel. unfold parseSubTLVs. rewrite tlv_while_trace.
  destruct (tlv_trace_terminates fuel data 0 Hd) as (tr & -> & _);
    [pose proof (js_length_nonneg data); lia|unfold js_length; lia|].
  apply run_subTlvs_total.
Qed.

Lemma qr_body_total fuel pd p :
  is_Some (parseSubTLVs fuel (value p)) -> is_Some (qr_body fuel pd p).
Proof.
  intros [m Hm]. unfold qr_body. rewrite Hm.
  repeat case_decide; eexists; reflexivity.
Qed.

(** X5.  On an input that contains no minus sign decoding terminates: the
    top-level loop and the nested loops finish within one more iteration
    than the input has characters, and [parseQrString] returns a Record. *)
Theorem decode_terminates_without_minus (data : jsstring) (prev : EmvoQrData)
    (fuel : nat) :
  45 ∉ data -> (length data < fuel)%nat ->
  is_Some (parseQrString fuel prev data) /\
  is_Some (parseSubTLVs fuel data).
Proof.
  intros Hd Hfuel. split; [|apply parseSubTLVs_terminates; assumption].
  unfold parseQrString, parseQrData. rewrite tlv_while_trace.
  destruct (tlv_trace_terminates fuel data 0 Hd) as (tr & -> & Htr);
    [pose proof (js_length_nonneg data); lia|unfold js_length; lia|].
  assert (Hrun : forall pd, is_Some (run_parsed (qr_body fuel) tr pd)).
  { induction tr as [|p tr IH]; intros pd; [eexists; reflexivity|].
    apply Forall_cons in Htr as [[Hv Hlen] Htr].
    cbn [run_parsed].
    destruct (qr_body_total fuel pd p) as [pd' ->]; [|apply IH, Htr].
    apply parseSubTLVs_terminates; [exact Hv|].
    unfold js_length in Hlen. lia. }
  destruct (Hrun initialParsedData) as [pd ->]. eexists. reflexivity.
Qed.

(** A string with a non-numeric header and a truncated value. *)
Lemma decode_terminates_without_minus_witness :
  is_Some (parseQrString 13 initialFormData (js "00029901zz11")).
Proof.
  apply (decode_terminates_without_minus (js "00029901zz11") initialFormData
           13).
  - intros Hin. vm_compute in Hin.
    repeat (apply elem_of_cons in Hin as [Hin|Hin]; [discriminate|]).
    apply elem_of_nil in Hin. exact Hin.
  - cbn. lia.
Defined.

(** ** Repeated tags *)

Lemma fold_insert_absent (l : list (jsstring * jsstring)) :
  forall (m : gmap jsstring jsstring) t,
  t ∉ map fst l ->
  fold_left (fun m tv => <[tv.1 := tv.2]> m) l m !! t = m !! t.
Proof.
  induction l as [|[t' v'] l IH]; intros m t Hnot; [reflexivity|].
  cbn [map fst] in Hnot. apply not_elem_of_cons in Hnot as [Hne Hnot].
  cbn [fold_left fst snd]. rewrite IH by exact Hnot.
  apply lookup_insert_ne. congruence.
Qed.

Lemma fold_insert_last (l1 l2 : list (jsstring * jsstring))
    (m : gmap jsstring jsstring) t v :
  t ∉ map fst l2 ->
  fold_left (fun m tv => <[tv.1 := tv.2]> m) (l1 ++ (t, v) :: l2) m !! t
  = Some v.
Proof.
  intros Hnot. rewrite fold_left_app. cbn [fold_left fst snd].
  rewrite fold_insert_absent by exact Hnot. apply lookup_insert_eq.
Qed.

(** X6.  In a well-formed sub-TLV sequence a repeated tag keeps its last
    value: [parseSubTLVs] returns an object that maps every tag of the
    sequence to the value of its last occurrence and has no other key. *)
Theorem parseSubTLVs_last_wins (l : list (jsstring * jsstring))
    (frag : jsstring) (fuel : nat) :
  Forall wf_tlv l -> js_length frag <= 3 -> (length l < fuel)%nat ->
  exists m : gmap jsstring jsstring,
    parseSubTLVs fuel (encodeTLVs l ++ frag) = Some m /\
    (forall t v, last_value t l v -> m !! t = Some v) /\
    (forall t, t ∉ map fst l -> m !! t = None).
Proof.
  intros Hwf Hfrag Hfuel.
  eexists. split; [apply parseSubTLVs_wf; assumption|]. split.
  - intros t v (l1 & l2 & -> & Hnot). apply fold_insert_last, Hnot.
  - intros t Hnot. rewrite fold_insert_absent by exact Hnot.
    apply lookup_empty.
Qed.

(** Tag 01 given twice. *)
Lemma parseSubTLVs_last_wins_witness :
  exists m : gmap jsstring jsstring,
    parseSubTLVs 4 (js "0101a0002KO0101b") = Some m /\
    m !! js "01" = Some (js "b") /\ m !! js "02" = None.
Proof.
  destruct (parseSubTLVs_last_wins
              [(js "01", js "a"); (js "00", js "KO"); (js "01", js "b")] [] 4)
    as (m & Hm & Hlast & Hnone).
  - repeat (apply Forall_cons; split;
            [split; [reflexivity|unfold js_length; cbn; lia]|]).
    apply Forall_nil_2.
  - unfold js_length; cbn; lia.
  - cbn; lia.
  - exists m. split; [exact Hm|]. split.
    + apply Hlast.
      exists [(js "01", js "a"); (js "00", js "KO")], [].
      split; [reflexivity|apply not_elem_of_nil].
    + apply Hnone. cbn [map fst]. rewrite !not_elem_of_cons.
      repeat split; try discriminate. apply not_elem_of_nil.
Defined.

Lemma tags_parsed_list l : forall i, tags (parsed_list i l) = map fst l.
Proof.
  induction l as [|tv l IH]; intros i; [reflexivity|].
  unfold tags in *. cbn [parsed_list map parsed_at tag]. rewrite IH.
  reflexivity.
Qed.

(** One field of the parsed data is assigned the value of its tag. *)
Ltac sets_field :=
  intros fuel a p a' Hb Ht; unfold qr_body in Hb; rewrite Ht in Hb;
  repeat (rewrite decide_False in Hb by discriminate);
  rewrite decide_True in Hb by reflexivity;
  try (destruct (parseSubTLVs fuel (value p)); [|discriminate]);
  cbn [mbind option_bind] in Hb; injection Hb as <-; reflexivity.

Lemma sets_payloadFormatIndicator : forall fuel a p a',
  qr_body fuel a p = Some a' -> tag p = js "00" ->
  p_payloadFormatIndicator a' = Some (value p).
Proof. sets_field. Qed.

Lemma sets_pointOfInitiationMethod : forall fuel a p a',
  qr_body fuel a p = Some a' -> tag p = js "01" ->
  p_pointOfInitiationMethod a' = Some (value p).
Proof. sets_field. Qed.

Lemma sets_merchantAccountInfo : forall fuel a p a',
  qr_body fuel a p = Some a' -> tag p = js "44" ->
  p_merchantAccountInfo a' = Some (value p).
Proof. sets_field. Qed.

Lemma sets_merchantCategoryCode : forall fuel a p a',
  qr_body fuel a p = Some a' -> tag p = js "52" ->
  p_merchantCategoryCode a' = Some (value p).
Proof. sets_field. Qed.

Lemma sets_transactionCurrency : forall fuel a p a',
  qr_body fuel a p = Some a' -> tag p = js "53" ->
  p_transactionCurrency a' = Some (value p).
Proof. sets_field. Qed.

Lemma sets_countryCode : forall fuel a p a',
  qr_body fuel a p = Some a' -> tag p = js "58" ->
  p_countryCode a' = Some (value p).
Proof. sets_field. Qed.

Lemma sets_merchantName : forall fuel a p a',
  qr_body fuel a p = Some a' -> tag p = js "59" ->
  p_merchantName a' = Some (value p).
Proof. sets_field. Qed.

Lemma sets_merchantCity : forall fuel a p a',
  qr_body fuel a p = Some a' -> tag p = js "60" ->
  p_merchantCity a' = Some (value p).
Proof. sets_field. Qed.

Lemma sets_crc : forall fuel a p a',
  qr_body fuel a p = Some a' -> tag p = js "63" ->
  p_crc a' = Some (value p).
Proof. sets_field. Qed.

(** Along a run, a field ends with the value of the last TLV of its tag. *)
Lemma run_qr_last {B} (proj : PartialEmvoQrData -> option B)
    (get : jsstring -> B) (t : jsstring) fuel :
  (forall a p a', qr_body fuel a p = Some a' -> tag p <> t ->
                  proj a' = proj a) ->
  (forall a p a', qr_body fuel a p = Some a' -> tag p = t ->
                  proj a' = Some (get (value p))) ->
  forall l1 l2 v pd pd',
  run_parsed (qr_body fuel) (parsed_list 0 (l1 ++ (t, v) :: l2)) pd
    = Some pd' ->
  t ∉ map fst l2 -> proj pd' = Some (get v).
Proof.
  intros Hkeep Hset l1 l2 v pd pd' Hrun Hnot.
  rewrite run_qr_app in Hrun.
  destruct (run_parsed (qr_body fuel) (parsed_list 0 l1) pd) as [pd1|];
    [|discriminate].
  cbn [parsed_list run_parsed] in Hrun.
  destruct (qr_body fuel pd1 (parsed_at 0 (t, v))) as [pd2|] eqn:E;
    [|discriminate].
  rewrite (run_parsed_keeps _ proj t Hkeep _ _ _ Hrun)
    by (rewrite tags_parsed_list; exact Hnot).
  apply (Hset _ _ _ E). reflexivity.
Qed.

(** X7.  Decoding a well-formed top-level sequence returns a Record in
    which every directly assigned field holds the value of the last TLV
    carrying its tag (a repeated tag overrides the earlier occurrence); for
    tag 44 this is the raw composite value stored in
    [merchantAccountInfo]. *)
Theorem decode_last_tag_wins (l : list (jsstring * jsstring))
    (frag : jsstring) (prev : EmvoQrData) :
  Forall wf_top l -> js_length frag <= 3 ->
  exists n r,
    (forall fuel, (n <= fuel)%nat ->
       parseQrString fuel prev (encodeTLVs l ++ frag) = Some r) /\
    (forall v, last_value (js "00") l v -> payloadFormatIndicator r = v) /\
    (forall v, last_value (js "01") l v -> pointOfInitiationMethod r = v) /\
    (forall v, last_value (js "44") l v -> merchantAccountInfo r = v) /\
    (forall v, last_value (js "52") l v -> merchantCategoryCode r = v) /\
    (forall v, last_value (js "53") l v -> transactionCurrency r = v) /\
    (forall v, last_value (js "58") l v -> countryCode r = v) /\
    (forall v, last_value (js "59") l v -> merchantName r = v) /\
    (forall v, last_value (js "60") l v -> merchantCity r = v) /\
    (forall v, last_value (js "63") l v -> crc r = v).
Proof.
  intros Hwf Hfrag.
  destruct (run_qr_wf l 0 initialParsedData Hwf) as (n & pd & Hrun).
  exists (n `max` S (length l))%nat, (mergeFormData prev pd).
  split.
  { intros fuel Hfuel. unfold parseQrString.
    rewrite parseQrData_wf; [|apply wf_top_flat, Hwf|exact Hfrag|lia].
    rewrite Hrun by lia. reflexivity. }
  specialize (Hrun n (le_n n)).
  unfold mergeFormData;
    cbn [payloadFormatIndicator pointOfInitiationMethod merchantAccountInfo
         merchantId merchantCategoryCode transactionCurrency countryCode
         merchantName merchantCity additionalData crc].
  repeat match goal with |- _ /\ _ => split end;
    intros v (l1 & l2 & -> & Hnot).
  - rewrite (run_qr_last p_payloadFormatIndicator id (js "00") n
               (keeps_payloadFormatIndicator n) (sets_payloadFormatIndicator n)
               _ _ _ _ _ Hrun Hnot). reflexivity.
  - rewrite (run_qr_last p_pointOfInitiationMethod id (js "01") n
               (keeps_pointOfInitiationMethod n)
               (sets_pointOfInitiationMethod n) _ _ _ _ _ Hrun Hnot).
    reflexivity.
  - rewrite (run_qr_last p_merchantAccountInfo id (js "44") n
               (keeps_merchantAccountInfo n) (sets_merchantAccountInfo n)
               _ _ _ _ _ Hrun Hnot). reflexivity.
  - rewrite (run_qr_last p_merchantCategoryCode id (js "52") n
               (keeps_merchantCategoryCode n) (sets_merchantCategoryCode n)
               _ _ _ _ _ Hrun Hnot). reflexivity.
  - rewrite (run_qr_last p_transactionCurrency id (js "53") n
               (keeps_transactionCurrency n) (sets_transactionCurrency n)
               _ _ _ _ _ Hrun Hnot). reflexivity.
  - rewrite (run_qr_last p_countryCode id (js "58") n
               (keeps_countryCode n) (sets_countryCode n)
               _ _ _ _ _ Hrun Hnot). reflexivity.
  - rewrite (run_qr_last p_merchantName id (js "59") n
               (keeps_merchantName n) (sets_merchantName n)
               _ _ _ _ _ Hrun Hnot). reflexivity.
  - rewrite (run_qr_last p_merchantCity id (js "60") n
               (keeps_merchantCity n) (sets_merchantCity n)
               _ _ _ _ _ Hrun Hnot). reflexivity.
  - rewrite (run_qr_last p_crc id (js "63") n
               (keeps_crc n) (sets_crc n) _ _ _ _ _ Hrun Hnot). reflexivity.
Qed.

(** The country code given twice. *)
Lemma decode_last_tag_wins_witness :
  exists n r,
    (forall fuel, (n <= fuel)%nat ->
       parseQrString fuel initialFormData (js "5802FR5802DE") = Some r) /\
    countryCode r = js "DE".
Proof.
  destruct (decode_last_tag_wins [(js "58", js "FR"); (js "58", js "DE")] []
              initialFormData)
    as (n & r & Hdec & _ & _ & _ & _ & _ & Hcc & _).
  - repeat (apply Forall_cons; split;
            [apply wf_top_plain;
               [reflexivity|unfold js_length; cbn; lia
               |discriminate|discriminate]|]).
    apply Forall_nil_2.
  - unfold js_length; cbn; lia.
  - exists n, r. split; [exact Hdec|]. apply Hcc.
    exists [(js "58", js "FR")], []. split; [reflexivity|apply not_elem_of_nil].
Defined.

(** ** The decoder: merging into the previous Record *)

Lemma run_parsed_app {A} (body : A -> ParsedTLV -> option A) tr1 :
  forall tr2 a,
  run_parsed body (tr1 ++ tr2) a =
    match run_parsed body tr1 a with
    | None => None
    | Some a1 => run_parsed body tr2 a1
    end.
Proof.
  induction tr1 as [|p tr1 IH]; intros tr2 a; [reflexivity|].
  cbn [app run_parsed]. destruct (body a p); [apply IH|reflexivity].
Qed.

(** Along a run, a field ends with the value of the last TLV met with its
    tag. *)
Lemma run_parsed_last {A B} (body : A -> ParsedTLV -> option A)
    (proj : A -> option B) (get : jsstring -> B) (t : jsstring) :
  (forall a p a', body a p = Some a' -> tag p <> t -> proj a' = proj a) ->
  (forall a p a', body a p = Some a' -> tag p = t ->
                  proj a' = Some (get (value p))) ->
  forall tr1 p tr2 a a',
  run_parsed body (tr1 ++ p :: tr2) a = Some a' ->
  tag p = t -> t ∉ tags tr2 -> proj a' = Some (get (value p)).
Proof.
  intros Hkeep Hset tr1 p tr2 a a' Hrun Ht Hnot.
  rewrite run_parsed_app in Hrun.
  destruct (run_parsed body tr1 a) as [a1|]; [|discriminate].
  cbn [run_parsed] in Hrun.
  destruct (body a1 p) as [a2|] eqn:E; [|discriminate].
  rewrite (run_parsed_keeps _ proj t Hkeep _ _ _ Hrun Hnot).
  apply (Hset _ _ _ E Ht).
Qed.

(** The bodies finish along a walk whose nested walks finish. *)
Lemma run_qr_total fuel tr :
  Forall (fun p => is_Some (parseSubTLVs fuel (value p))) tr ->
  forall pd, is_Some (run_parsed (qr_body fuel) tr pd).
Proof.
  induction tr as [|p tr IH]; intros Htr pd; [eexists; reflexivity|].
  apply Forall_cons in Htr as [Hp Htr]. cbn [run_parsed].
  destruct (qr_body_total fuel pd p Hp) as [pd' ->]. apply IH, Htr.
Qed.

(** On a terminating input the top-level walk and the bodies finish. *)
Lemma walk_of_terminating_input data :
  terminating_input data ->
  exists n tr pd,
    tlv_trace n data 0 = Some tr /\
    run_parsed (qr_body n) tr initialParsedData = Some pd.
Proof.
  intros [Hd|(l & frag & -> & Hwf & Hfrag)].
  - exists (S (length data)).
    destruct (tlv_trace_terminates (S (length data)) data 0 Hd)
      as (tr & Htr & Hvals);
      [pose proof (js_length_nonneg data); lia|unfold js_length; lia|].
    destruct (run_qr_total (S (length data)) tr) with (pd := initialParsedData)
      as [pd Hpd].
    { eapply Forall_impl; [exact Hvals|]. intros p [Hv Hlen].
      apply parseSubTLVs_terminates; [exact Hv|].
      unfold js_length in Hlen. lia. }
    exists tr, pd. split; assumption.
  - destruct (run_qr_wf l 0 initialParsedData Hwf) as (n & pd & Hrun).
    exists (n `max` S (length l))%nat, (parsed_list 0 l), pd. split.
    + apply (tlv_trace_wf l [] frag);
        [apply wf_top_flat, Hwf|exact Hfrag|lia].
    + apply Hrun. lia.
Qed.

(** One field of the merge, from the two facts about its assignment. *)
Lemma merged_field (t : jsstring) (f : EmvoQrData -> jsstring)
    (pf : PartialEmvoQrData -> option jsstring) fuel tr pd prev :
  (forall a p a', qr_body fuel a p = Some a' -> tag p <> t -> pf a' = pf a) ->
  (forall a p a', qr_body fuel a p = Some a' -> tag p = t ->
                  pf a' = Some (value p)) ->
  pf initialParsedData = None ->
  run_parsed (qr_body fuel) tr initialParsedData = Some pd ->
  f (mergeFormData prev pd) = default (f prev) (pf pd) ->
  merged t f tr prev (mergeFormData prev pd).
Proof.
  intros Hkeep Hset Hinit Hrun Hf. split.
  - intros Hnot.
    rewrite Hf, (run_parsed_keeps _ pf t Hkeep _ _ _ Hrun Hnot), Hinit.
    reflexivity.
  - intros v (tr1 & p & tr2 & -> & Ht & Hv & Hnot).
    rewrite Hf, (run_parsed_last _ pf id t Hkeep Hset _ _ _ _ _ Hrun Ht Hnot).
    exact Hv.
Qed.

(** C6 (amended).  Decoding merges the parsed fields into the previously
    held Record.  On an input without a minus sign, and on a well-formed
    top-level sequence followed by at most three characters, the walk ends
    and a Record is returned.  In that Record each of the nine string
    fields assigned by the [switch] holds the value of the last TLV the walk
    met with the field's tag, and, when the walk met no TLV with that tag,
    the value the field has in the previous Record; without tag 44 the
    merchant id is the previous one as well. *)
Theorem decode_merges_parsed_fields (data : jsstring) (prev : EmvoQrData) :
  terminating_input data ->
  exists n r tr,
    (forall fuel, (n <= fuel)%nat ->
       parseQrString fuel prev data = Some r /\
       tlv_trace fuel data 0 = Some tr) /\
    merged (js "00") payloadFormatIndicator tr prev r /\
    merged (js "01") pointOfInitiationMethod tr prev r /\
    merged (js "44") merchantAccountInfo tr prev r /\
    merged (js "52") merchantCategoryCode tr prev r /\
    merged (js "53") transactionCurrency tr prev r /\
    merged (js "58") countryCode tr prev r /\
    merged (js "59") merchantName tr prev r /\
    merged (js "60") merchantCity tr prev r /\
    merged (js "63") crc tr prev r /\
    (js "44" ∉ tags tr -> merchantId r = merchantId prev).
Proof.
  intros Hterm.
  destruct (walk_of_terminating_input data Hterm)
    as (n & tr & pd & Htr & Hrun).
  exists n, (mergeFormData prev pd), tr. split.
  { intros fuel Hfuel.
    pose proof (tlv_trace_mono _ _ _ _ _ Htr Hfuel) as Htr'.
    split; [|exact Htr'].
    unfold parseQrString, parseQrData. rewrite tlv_while_trace, Htr'.
    rewrite (run_parsed_mono (qr_body n) (qr_body fuel)
               (fun a p x Hb => qr_body_mono _ _ _ _ _ Hb Hfuel) _ _ _ Hrun).
    reflexivity. }
  repeat match goal with |- _ /\ _ => split end.
  - apply (merged_field _ _ p_payloadFormatIndicator n);
      [apply keeps_payloadFormatIndicator|apply sets_payloadFormatIndicator
      |reflexivity|exact Hrun|reflexivity].
  - apply (merged_field _ _ p_pointOfInitiationMethod n);
      [apply keeps_pointOfInitiationMethod|apply sets_pointOfInitiationMethod
      |reflexivity|exact Hrun|reflexivity].
  - apply (merged_field _ _ p_merchantAccountInfo n);
      [apply keeps_merchantAccountInfo|apply sets_merchantAccountInfo
      |reflexivity|exact Hrun|reflexivity].
  - apply (merged_field _ _ p_merchantCategoryCode n);
      [apply keeps_merchantCategoryCode|apply sets_merchantCategoryCode
      |reflexivity|exact Hrun|reflexivity].
  - apply (merged_field _ _ p_transactionCurrency n);
      [apply keeps_transactionCurrency|apply sets_transactionCurrency
      |reflexivity|exact Hrun|reflexivity].
  - apply (merged_field _ _ p_countryCode n);
      [apply keeps_countryCode|apply sets_countryCode
      |reflexivity|exact Hrun|reflexivity].
  - apply (merged_field _ _ p_merchantName n);
      [apply keeps_merchantName|apply sets_merchantName
      |reflexivity|exact Hrun|reflexivity].
  - apply (merged_field _ _ p_merchantCity n);
      [apply keeps_merchantCity|apply sets_merchantCity
      |reflexivity|exact Hrun|reflexivity].
  - apply (merged_field _ _ p_crc n);
      [apply keeps_crc|apply sets_crc|reflexivity|exact Hrun|reflexivity].
  - intros Hnot. unfold mergeFormData; cbn [merchantId].
    rewrite (run_parsed_keeps _ _ _ (keeps_merchantId n) _ _ _ Hrun Hnot).
    reflexivity.
Qed.

(** The country code given twice and a merchant name, decoded over the
    initial form data: a Record is returned, its country code is the second
    one, its merchant name the parsed one, and its merchant city, whose tag
    60 is absent, the previous one. *)
Lemma decode_merges_parsed_fields_witness :
  exists n r,
    (forall fuel, (n <= fuel)%nat ->
       parseQrString fuel initialFormData (js "5802FR5903ABC5802DE")
       = Some r) /\
    countryCode r = js "DE" /\
    merchantName r = js "ABC" /\
    merchantCity r = merchantCity initialFormData.
Proof.
  destruct (decode_merges_parsed_fields (js "5802FR5903ABC5802DE")
              initialFormData)
    as (n & r & tr & Hdec & _ & _ & _ & _ & _ & Hcc & Hname & Hcity & _).
  - left. intros Hin. vm_compute in Hin.
    repeat (apply elem_of_cons in Hin as [Hin|Hin]; [discriminate|]).
    apply elem_of_nil in Hin. exact Hin.
  - assert (Htr : tr = [mkParsedTLV (js "58") 2 (js "FR") 6;
                        mkParsedTLV (js "59") 3 (js "ABC") 13;
                        mkParsedTLV (js "58") 2 (js "DE") 19]).
    { destruct (Hdec (n `max` 4)%nat ltac:(lia)) as [_ H1].
      rewrite (tlv_trace_mono 4 (n `max` 4) (js "5802FR5903ABC5802DE") 0
                 [mkParsedTLV (js "58") 2 (js "FR") 6;
                  mkParsedTLV (js "59") 3 (js "ABC") 13;
                  mkParsedTLV (js "58") 2 (js "DE") 19]) in H1;
        [congruence|vm_compute; reflexivity|lia]. }
    subst tr.
    exists n, r. split; [intros fuel Hfuel; apply (Hdec fuel Hfuel)|].
    split; [|split].
    + apply (proj2 Hcc).
      exists [mkParsedTLV (js "58") 2 (js "FR") 6;
              mkParsedTLV (js "59") 3 (js "ABC") 13],
             (mkParsedTLV (js "58") 2 (js "DE") 19), [].
      repeat split. apply not_elem_of_nil.
    + apply (proj2 Hname).
      exists [mkParsedTLV (js "58") 2 (js "FR") 6],
             (mkParsedTLV (js "59") 3 (js "ABC") 13),
             [mkParsedTLV (js "58") 2 (js "DE") 19].
      repeat split. unfold tags. cbn [map tag].
      intros Hin. apply list_elem_of_singleton in Hin. discriminate.
    + apply (proj1 Hcity). unfold tags. cbn [map tag].
      rewrite !not_elem_of_cons. repeat split; try discriminate.
      apply not_elem_of_nil.
Defined.

(** ** Distinct Records, distinct strings *)

(** X11.  Two Records within the length limits that encode to the same
    string agree on every encoded field: the string determines the nine
    fields the encoder reads. *)
Theorem encode_injective (r1 r2 : EmvoQrData) :
  fields_within_99 r1 -> composites_within_99 r1 ->
  fields_within_99 r2 -> composites_within_99 r2 ->
  encode r1 = encode r2 ->
  payloadFormatIndicator r1 = payloadFormatIndicator r2 /\
  pointOfInitiationMethod r1 = pointOfInitiationMethod r2 /\
  merchantId r1 = merchantId r2 /\
  merchantCategoryCode r1 = merchantCategoryCode r2 /\
  transactionCurrency r1 = transactionCurrency r2 /\
  countryCode r1 = countryCode r2 /\
  merchantName r1 = merchantName r2 /\
  merchantCity r1 = merchantCity r2 /\
  additionalData r1 = additionalData r2.
Proof.
  intros Hf1 Hc1 Hf2 Hc2 Heq.
  pose proof (parseQrString_of_encode r1 r1 11 Hf1 Hc1 (le_n 11)) as H1.
  pose proof (parseQrString_of_encode r2 r1 11 Hf2 Hc2 (le_n 11)) as H2.
  rewrite Heq, H2 in H1. injection H1 as E1 E2 _ E3 E4 E5 E6 E7 E8 E9.
  repeat split; congruence.
Qed.

(** ** Editing the form *)

(** X10.  The form keys [merchantAccountInfo] and [crc] are not read by the
    encoder, and the key [additionalData] is ignored by [handleInputChange]:
    editing any of them leaves the generated string unchanged. *)
Theorem dead_form_fields (v : jsstring) (r : EmvoQrData) :
  encode (handleInputChange F_merchantAccountInfo v r) = encode r /\
  encode (handleInputChange F_crc v r) = encode r /\
  handleInputChange F_additionalData v r = r.
Proof.
  split; [|split]; [| |reflexivity]; apply encode_ext; reflexivity.
Qed.

(** X12.  Edits compose as assignments: two edits of different keys commute
    and of two edits of the same key the later one wins, for the string
    fields and for the keys of the additional data; an edit of a string field
    and an edit of the additional data commute. *)
Theorem form_edits_commute (f1 f2 : EmvoQrField) (k1 k2 : AdditionalDataKey)
    (v1 v2 : jsstring) (r : EmvoQrData) :
  (f1 <> f2 ->
   handleInputChange f1 v1 (handleInputChange f2 v2 r)
   = handleInputChange f2 v2 (handleInputChange f1 v1 r)) /\
  handleInputChange f1 v1 (handleInputChange f1 v2 r)
  = handleInputChange f1 v1 r /\
  (k1 <> k2 ->
   handleAdditionalDataChange k1 v1 (handleAdditionalDataChange k2 v2 r)
   = handleAdditionalDataChange k2 v2 (handleAdditionalDataChange k1 v1 r)) /\
  handleAdditionalDataChange k1 v1 (handleAdditionalDataChange k1 v2 r)
  = handleAdditionalDataChange k1 v1 r /\
  handleAdditionalDataChange k1 v1 (handleInputChange f1 v2 r)
  = handleInputChange f1 v2 (handleAdditionalDataChange k1 v1 r).
Proof.
  repeat match goal with |- _ /\ _ => split end.
  - intros Hne. destruct f1, f2; try reflexivity; contradiction.
  - destruct f1; reflexivity.
  - intros Hne. destruct k1, k2; try reflexivity; contradiction.
  - destruct k1; reflexivity.
  - destruct k1, f1; reflexivity.
Qed.

(** Country code and merchant name. *)
Lemma form_edits_commute_witness :
  handleInputChange F_countryCode (js "FR")
    (handleInputChange F_merchantName (js "ACME") initialFormData)
  = handleInputChange F_merchantName (js "ACME")
      (handleInputChange F_countryCode (js "FR") initialFormData).
Proof.
  apply (form_edits_commute F_countryCode F_merchantName K00 K01
           (js "FR") (js "ACME") initialFormData).
  discriminate.
Defined.

(** The initial form data and a copy with another (unread) [crc]. *)
Lemma encode_injective_witness :
  merchantId initialFormData
  = merchantId (handleInputChange F_crc (js "0000") initialFormData).
Proof.
  assert (Hf : forall r, r = initialFormData \/
                 r = handleInputChange F_crc (js "0000") initialFormData ->
               fields_within_99 r).
  { intros r [-> | ->];
      unfold fields_within_99, handleInputChange, initialFormData;
      cbn [payloadFormatIndicator pointOfInitiationMethod merchantAccountInfo
           merchantId merchantCategoryCode transactionCurrency countryCode
           merchantName merchantCity additionalData crc ad00 ad01 ad02];
      repeat (apply Forall_cons; split; [vm_compute; discriminate|]);
      apply Forall_nil_2. }
  assert (Hc : composites_within_99 initialFormData)
    by (split; vm_compute; discriminate).
  apply (encode_injective initialFormData
           (handleInputChange F_crc (js "0000") initialFormData)
           (Hf _ (or_introl eq_refl)) Hc (Hf _ (or_intror eq_refl)) Hc).
  apply encode_ext; reflexivity.
Defined.

(** ** The displayed TLV tree *)

Lemma formatLength_length_ge n : (2 <= length (formatLength n))%nat.
Proof.
  unfold formatLength, padStart, js_length.
  rewrite length_app, length_replicate. lia.
Qed.

(** A value of at most 99 characters is determined by its TLV. *)
Lemma createTLV_inj_value t v1 v2 :
  js_length v2 <= 99 -> createTLV t v1 = createTLV t v2 -> v1 = v2.
Proof.
  intros Hv2 Heq. rewrite (createTLV_two_digits t v2) in Heq by exact Hv2.
  unfold createTLV, getEmvoLength in Heq.
  apply app_inv_head in Heq.
  pose proof (formatLength_length_ge (js_length v1)) as Hge.
  pose proof (f_equal length Heq) as Hlen.
  rewrite !length_app, zero_pad2_length in Hlen.
  assert (Hv1 : js_length v1 <= 99) by (unfold js_length in *; lia).
  rewrite formatLength_two_digits in Heq
    by (pose proof (js_length_nonneg v1); lia).
  rewrite formatLength_two_digits, zero_pad2_length in Hlen
    by (pose proof (js_length_nonneg v1); lia).
  apply app_inj_2 in Heq; [tauto|lia].
Qed.

(** X8.  The TLV tree shown (and exported as JSON) next to the string agrees
    with the string at the top level: re-encoding its nodes in order gives
    exactly the generated string, every top-level node records the length
    of its value, and the sub-tags listed under tag 64 re-encode to the
    value of tag 64. *)
Theorem tlv_tree_matches_string (r : EmvoQrData) :
  let g := generateQrString r in
  encodeTree (tlvs g) = qrString g /\
  Forall (fun n => tlv_length n = js_length (tlv_value n)) (tlvs g) /\
  (forall n, tlvs g !! 8%nat = Some n ->
             tlv_tag n = js "64" /\ encodeSubTags n = tlv_value n).
Proof.
  cbv zeta. unfold generateQrString, encodeTree.
  cbn [tlvs qrString map concat leaf tlv_tag tlv_value].
  split; [|split].
  - rewrite !app_nil_l, app_nil_r, <- !app_assoc. reflexivity.
  - repeat (apply Forall_cons; split; [reflexivity|]). apply Forall_nil_2.
  - intros n Hn. cbn [lookup list_lookup] in Hn. injection Hn as <-.
    split; [reflexivity|].
    unfold encodeSubTags, generateAdditionalDataTLV.
    cbn [subTags map concat leaf tlv_tag tlv_value].
    rewrite app_nil_r. reflexivity.
Qed.

(** X9.  The sub-tags listed under tag 44 of the tree always show the fixed
    string "410790020044601" for sub-tag 01; they re-encode to the value
    actually encoded under tag 44 exactly when the merchant id is empty or
    is itself that fixed string. *)
Theorem tlv_tree_tag_44_agrees_iff (r : EmvoQrData) (n : TLVTag) :
  tlvs (generateQrString r) !! 2%nat = Some n ->
  tlv_tag n = js "44" /\
  tlv_value n = generateMerchantAccountInfo (merchantId r) /\
  (encodeSubTags n = tlv_value n <->
   merchantId r = [] \/ merchantId r = js "410790020044601").
Proof.
  unfold generateQrString. cbn [tlvs lookup list_lookup].
  intros [= <-]. split; [reflexivity|]. split; [reflexivity|].
  unfold encodeSubTags, generateMerchantAccountInfo.
  cbn [subTags map concat leaf tlv_tag tlv_value].
  rewrite app_nil_r. split.
  - intros Heq. apply app_inv_head in Heq. symmetry in Heq.
    apply createTLV_inj_value in Heq; [|unfold js_length; cbn; lia].
    destruct (merchantId r) as [|c m]; [left; reflexivity|right; exact Heq].
  - intros [-> | ->]; reflexivity.
Qed.

(** The initial form data: the tree and the string disagree under tag 44. *)
Lemma tlv_tree_tag_44_agrees_iff_witness :
  exists n, tlvs (generateQrString initialFormData) !! 2%nat = Some n /\
            encodeSubTags n <> tlv_value n.
Proof.
  eexists. split; [reflexivity|].
  intros Heq.
  destruct (tlv_tree_tag_44_agrees_iff initialFormData _ eq_refl)
    as (_ & _ & Hiff).
  apply Hiff in Heq. destruct Heq as [Heq | Heq]; discriminate Heq.
Defined.

(** ** The stored checksum is not verified *)

(** X13.  The decoder never checks the checksum: after a well-formed
    sequence, a final TLV 63 with any value of at most 99 characters is
    accepted, and the Record returned is the one returned for the sequence
    alone with its [crc] set to that value, as [handleInputChange] would. *)
Theorem decode_ignores_checksum (l : list (jsstring * jsstring))
    (prev : EmvoQrData) :
  Forall wf_top l ->
  exists n r0,
    (forall fuel, (n <= fuel)%nat ->
       parseQrString fuel prev (encodeTLVs l) = Some r0) /\
    (forall c fuel, js_length c <= 99 -> (n <= fuel)%nat ->
       parseQrString fuel prev (encodeTLVs l ++ createTLV (js "63") c)
       = Some (handleInputChange F_crc c r0)).
Proof.
  intros Hwf.
  destruct (run_qr_wf l 0 initialParsedData Hwf) as (n & pd & Hrun).
  exists (n `max` S (S (length l)))%nat, (mergeFormData prev pd).
  split.
  - intros fuel Hfuel. unfold parseQrString.
    rewrite <- (app_nil_r (encodeTLVs l)).
    rewrite parseQrData_wf;
      [|apply wf_top_flat, Hwf|unfold js_length; cbn; lia|lia].
    rewrite Hrun by lia. reflexivity.
  - intros c fuel Hc Hfuel. unfold parseQrString.
    rewrite <- encodeTLVs_snoc, <- (app_nil_r (encodeTLVs _)).
    rewrite parseQrData_wf.
    + rewrite run_qr_app, Hrun by lia.
      cbn [parsed_list run_parsed]. rewrite qr_body_63. reflexivity.
    + apply Forall_app. split; [apply wf_top_flat, Hwf|].
      apply Forall_cons. split; [split; [reflexivity|exact Hc]|].
      apply Forall_nil_2.
    + unfold js_length; cbn; lia.
    + rewrite length_app. cbn [length]. lia.
Qed.

(** A country code followed by a checksum that is not one. *)
Lemma decode_ignores_checksum_witness :
  exists n r0,
    (forall fuel, (n <= fuel)%nat ->
       parseQrString fuel initialFormData (encodeTLVs [(js "58", js "FR")])
       = Some r0) /\
    (forall fuel, (n <= fuel)%nat ->
       parseQrString fuel initialFormData
         (encodeTLVs [(js "58", js "FR")] ++ createTLV (js "63") (js "ZZZZ"))
       = Some (handleInputChange F_crc (js "ZZZZ") r0)).
Proof.
  destruct (decode_ignores_checksum [(js "58", js "FR")] initialFormData)
    as (n & r0 & H0 & Hc).
  - apply Forall_cons; split; [|apply Forall_nil_2].
    apply wf_top_plain; [reflexivity|unfold js_length; cbn; lia
                        |discriminate|discriminate].
  - exists n, r0. split; [exact H0|].
    intros fuel Hfuel. apply Hc; [unfold js_length; cbn; lia|exact Hfuel].
Defined.

(** ** Short inputs *)

(** X22.  An input shorter than four characters (the empty string
    included) is not an error: the decoder returns the previous Record with
    its additional data replaced by three empty strings and every other
    field untouched. *)
Theorem short_input_resets_additional_data (data : jsstring)
    (prev : EmvoQrData) (fuel : nat) :
  js_length data < 4 ->
  parseQrString (S fuel) prev data =
    Some (handleAdditionalDataChange K02 []
            (handleAdditionalDataChange K01 []
               (handleAdditionalDataChange K00 [] prev))).
Proof.
  intros Hshort. unfold parseQrString, parseQrData.
  rewrite tlv_while_unfold, parseTLV_short by lia.
  destruct (0 <? js_length data); reflexivity.
Qed.

(** The empty string. *)
Lemma short_input_resets_additional_data_witness :
  additionalData <$> parseQrString 1 initialFormData []
  = Some (mkAdditionalData [] [] []).
Proof.
  rewrite (short_input_resets_additional_data [] initialFormData 0);
    [reflexivity|unfold js_length; cbn; lia].
Defined.

(** ** Headers that the decoder accepts *)

(** X23.  [parseTLV] succeeds on every TLV whose two-character header is
    read by [parseInt] as the length of the value, wherever the TLV sits in
    the input: with X4, this characterises the successful calls at
    non-negative indices and lengths. *)
Theorem parseTLV_complete (pre t hdr v post : jsstring) :
  length t = 2%nat -> length hdr = 2%nat ->
  parseInt hdr = Some (js_length v) ->
  parseTLV (pre ++ t ++ hdr ++ v ++ post) (js_length pre) =
    Some (mkParsedTLV t (js_length v) v (js_length pre + 4 + js_length v)).
Proof.
  intros Ht Hh Hint.
  pose proof (js_length_nonneg pre). pose proof (js_length_nonneg v).
  pose proof (js_length_nonneg post).
  assert (Ht' : js_length t = 2) by (unfold js_length; lia).
  assert (Hh' : js_length hdr = 2) by (unfold js_length; lia).
  set (data := pre ++ t ++ hdr ++ v ++ post).
  assert (Hlen : js_length data = js_length pre + 4 + js_length v
                                 + js_length post).
  { unfold data. rewrite !js_length_app. lia. }
  assert (Htag : substring data (js_length pre) (js_length pre + 2) = t).
  { replace (js_length pre + 2) with (js_length pre + js_length t) by lia.
    apply substring_middle. }
  assert (Hstr : substring data (js_length pre + 2) (js_length pre + 4) = hdr).
  { replace (js_length pre + 2) with (js_length (pre ++ t))
      by (rewrite js_length_app; lia).
    replace (js_length pre + 4) with (js_length (pre ++ t) + js_length hdr)
      by (rewrite js_length_app; lia).
    unfold data. rewrite (app_assoc pre t). apply substring_middle. }
  assert (Hval : substring data (js_length pre + 4)
                   (js_length pre + 4 + js_length v) = v).
  { replace (js_length pre + 4) with (js_length (pre ++ t ++ hdr))
      by (rewrite !js_length_app; lia).
    unfold data.
    rewrite (app_assoc t hdr), (app_assoc pre (t ++ hdr)).
    apply substring_middle. }
  unfold parseTLV. cbv zeta. rewrite Hlen, Htag, Hstr, Hint.
  destruct (js_length pre >=? _) eqn:E1; [lia|].
  destruct (js_length pre + 4 + js_length v >? _) eqn:E2; [lia|].
  rewrite Hval. reflexivity.
Qed.

Lemma digit_not_white_space d :
  0 <= d <= 9 -> isStrWhiteSpaceChar (48 + d) = false.
Proof.
  intros Hd.
  apply (check_range (fun z => isStrWhiteSpaceChar (48 + z) = false) 10);
    [vm_compute; reflexivity|lia].
Qed.

Lemma parseInt_digit_then_other d x :
  0 <= d <= 9 -> digitValue x = None -> parseInt [48 + d; x] = Some d.
Proof.
  intros Hd Hx. rewrite parseInt_cases. cbn [trimStart].
  rewrite digit_not_white_space by exact Hd.
  destruct (48 + d =? 45) eqn:E1; [lia|].
  destruct (48 + d =? 43) eqn:E2; [lia|].
  cbn [parseDigits]. unfold digitValue at 1.
  destruct ((48 <=? 48 + d) && (48 + d <=? 57)) eqn:E3.
  - rewrite Hx. cbn [default from_option id]. f_equal. lia.
  - apply andb_false_iff in E3 as [E3|E3]; lia.
Qed.

(** X24.  The length header need not be two digits: one digit followed by
    any character that is not a digit is read as that one-digit length, so
    the decoder accepts TLVs that the encoder never writes. *)
Theorem one_digit_header_accepted (pre t v post : jsstring) (d x : Z) :
  length t = 2%nat -> 0 <= d <= 9 -> js_length v = d ->
  digitValue x = None ->
  parseTLV (pre ++ t ++ [48 + d; x] ++ v ++ post) (js_length pre) =
    Some (mkParsedTLV t d v (js_length pre + 4 + d)).
Proof.
  intros Ht Hd Hv Hx. subst d.
  apply parseTLV_complete; [exact Ht|reflexivity|].
  apply parseInt_digit_then_other; assumption.
Qed.

(** The header "2x". *)
Lemma one_digit_header_accepted_witness :
  parseTLV (js "582xFR") 0 = Some (mkParsedTLV (js "58") 2 (js "FR") 6).
Proof.
  apply (one_digit_header_accepted [] (js "58") (js "FR") [] 2 120).
  - reflexivity.
  - lia.
  - reflexivity.
  - reflexivity.
Defined.

(** The header "+2". *)
Lemma parseTLV_complete_witness :
  parseTLV (js "58+2FR") 0 = Some (mkParsedTLV (js "58") 2 (js "FR") 6).
Proof.
  apply (parseTLV_complete [] (js "58") (js "+2") (js "FR") []).
  - reflexivity.
  - reflexivity.
  - reflexivity.
Defined.

(** * The other components *)

(** ** Scan and frame histories *)

Lemma take_cons_take {A} (k : nat) (x : A) (h : list A) :
  (k <= 10)%nat -> take k (x :: take 9 h) = take k (x :: h).
Proof.
  intros Hk. destruct k as [|k]; [reflexivity|].
  cbn [take]. rewrite take_take. do 2 f_equal. lia.
Qed.

Lemma afterScans_take {A} (scans : list A) : forall history,
  (length history <= 10)%nat ->
  Scanner.afterScans scans history = take 10 (reverse scans ++ history).
Proof.
  unfold Scanner.afterScans.
  induction scans as [|s scans IH]; intros history Hlen.
  - cbn [fold_left]. rewrite reverse_nil, app_nil_l, take_ge; [reflexivity|lia].
  - rewrite fold_left_step, IH.
    + unfold Scanner.pushScan. rewrite reverse_cons, <- app_assoc.
      cbn [app]. rewrite !(take_app (reverse scans)).
      f_equal. apply take_cons_take. lia.
    + unfold Scanner.pushScan. cbn [length]. rewrite length_take. lia.
Qed.

Lemma handleEvent_recorded {Time Raw} (e : Scanner.ScanEvent Time Raw) h :
  Scanner.handleEvent h e =
    match Scanner.recorded e with
    | Some scanData => Scanner.pushScan scanData h
    | None => h
    end.
Proof.
  destruct e as [result raw now|fileName iso now]; [|reflexivity].
  destruct result; reflexivity.
Qed.

Lemma afterEvents_afterScans {Time Raw}
    (events : list (Scanner.ScanEvent Time Raw)) : forall h,
  Scanner.afterEvents events h =
    Scanner.afterScans (omap Scanner.recorded events) h.
Proof.
  unfold Scanner.afterEvents, Scanner.afterScans.
  induction events as [|e events IH]; intros h; [reflexivity|].
  cbn [fold_left omap list_omap]. rewrite IH, handleEvent_recorded.
  destruct (Scanner.recorded e); reflexivity.
Qed.

Lemma recorded_text {Time Raw} (e : Scanner.ScanEvent Time Raw) scanData :
  Scanner.recorded e = Some scanData -> Scanner.text scanData <> [].
Proof.
  destruct e as [result raw now|fileName iso now]; cbn [Scanner.recorded].
  - case_bool_decide; [discriminate|].
    intros [= <-]. assumption.
  - intros [= <-]. discriminate.
Qed.

(** X14.  The scan history holds the ten most recent recorded scans, newest
    first.  After any sequence of camera results and loaded uploads,
    starting from the empty history, it is the first ten of the recorded
    entries in reverse order, where a camera result with an empty text
    leaves no entry; so it never has more than ten entries and none of them
    has an empty text.  The frame history of the native scanner is updated
    by an updater that computes the same list. *)
Theorem scan_history_keeps_last_ten {Time Raw : Type}
    (events : list (Scanner.ScanEvent Time Raw)) :
  Scanner.afterEvents events [] =
    take 10 (reverse (omap Scanner.recorded events)) /\
  (length (Scanner.afterEvents events []) <= 10)%nat /\
  Forall (fun scanData => Scanner.text scanData <> [])
    (Scanner.afterEvents events []) /\
  (forall (A : Type) (frame : A) history,
     Scanner.pushFrame frame history = Scanner.pushScan frame history).
Proof.
  assert (H : Scanner.afterEvents events [] =
              take 10 (reverse (omap Scanner.recorded events))).
  { rewrite afterEvents_afterScans, afterScans_take by (cbn; lia).
    rewrite app_nil_r. reflexivity. }
  split; [exact H|]. split; [rewrite H, length_take; lia|].
  split; [|reflexivity].
  rewrite H. apply Forall_take, Forall_reverse, Forall_forall.
  intros scanData Hin. apply list_elem_of_omap in Hin as (e & _ & He).
  exact (recorded_text e scanData He).
Qed.

(** ** The URL navigator *)

Lemma startsWith_app prefix s :
  UrlNavigator.startsWith (prefix ++ s) prefix = true.
Proof.
  unfold UrlNavigator.startsWith. apply bool_decide_eq_true_2.
  apply take_app_length.
Qed.

Lemma addProtocol_has_protocol u :
  UrlNavigator.startsWith (UrlNavigator.addProtocol u) (js "http://")
  || UrlNavigator.startsWith (UrlNavigator.addProtocol u) (js "https://")
  = true.
Proof.
  unfold UrlNavigator.addProtocol.
  destruct (UrlNavigator.startsWith u (js "http://")
            || UrlNavigator.startsWith u (js "https://")) eqn:E;
    [exact E|].
  rewrite (startsWith_app (js "https://") u). apply orb_true_r.
Qed.

(** X15.  Whenever [handleNavigate] navigates, the input is not blank and
    is marked valid, and the target starts with "http://" or "https://" and
    ends with the text of the input; adding the protocol twice is the same
    as adding it once. *)
Theorem navigate_target_has_protocol (st : UrlNavigator.State)
    (target : jsstring) :
  UrlNavigator.handleNavigate st = Some target ->
  (UrlNavigator.startsWith target (js "http://")
   || UrlNavigator.startsWith target (js "https://") = true) /\
  (exists prefix, target = prefix ++ UrlNavigator.url st) /\
  UrlNavigator.trim (UrlNavigator.url st) <> [] /\
  UrlNavigator.isValidUrl st = true /\
  UrlNavigator.addProtocol target = target.
Proof.
  unfold UrlNavigator.handleNavigate.
  destruct (UrlNavigator.trim (UrlNavigator.url st)) as [|c t] eqn:Et;
    [discriminate|].
  destruct (UrlNavigator.isValidUrl st); cbn [negb]; [|discriminate].
  intros [= <-].
  pose proof (addProtocol_has_protocol (UrlNavigator.url st)) as Hp.
  split; [exact Hp|]. split.
  { unfold UrlNavigator.addProtocol.
    destruct (UrlNavigator.startsWith (UrlNavigator.url st) (js "http://")
              || UrlNavigator.startsWith (UrlNavigator.url st) (js "https://"));
      [exists []; reflexivity|eexists; reflexivity]. }
  split; [discriminate|]. split; [reflexivity|].
  unfold UrlNavigator.addProtocol at 1. rewrite Hp. reflexivity.
Qed.

(** The input "example.com". *)
Lemma navigate_target_has_protocol_witness :
  UrlNavigator.handleNavigate (UrlNavigator.mkState (js "example.com") true)
  = Some (js "https://example.com") /\
  UrlNavigator.addProtocol (js "https://example.com")
  = js "https://example.com".
Proof.
  assert (H : UrlNavigator.handleNavigate
                (UrlNavigator.mkState (js "example.com") true)
              = Some (js "https://example.com"))
    by (vm_compute; reflexivity).
  split; [exact H|].
  exact (proj2 (proj2 (proj2 (proj2
           (navigate_target_has_protocol _ _ H))))).
Defined.

(** X16.  After the user typed a text, [handleNavigate] navigates only to a
    string that the URL constructor accepted: the string validated by
    [handleUrlChange] and the string navigated to are the same, the text
    with the protocol added. *)
Theorem typed_url_is_validated (URL_accepts : jsstring -> bool)
    (value target : jsstring) (st : UrlNavigator.State) :
  UrlNavigator.handleNavigate
    (UrlNavigator.handleUrlChange URL_accepts value st) = Some target ->
  target = UrlNavigator.addProtocol value /\ URL_accepts target = true.
Proof.
  unfold UrlNavigator.handleNavigate, UrlNavigator.handleUrlChange.
  cbn [UrlNavigator.url UrlNavigator.isValidUrl].
  destruct (UrlNavigator.trim value) as [|c t]; [discriminate|].
  unfold UrlNavigator.validateUrl.
  destruct (URL_accepts (UrlNavigator.addProtocol value)) eqn:E;
    cbn [negb]; [|discriminate].
  intros [= <-]. split; [reflexivity|exact E].
Qed.

(** A URL constructor that accepts everything. *)
Lemma typed_url_is_validated_witness :
  UrlNavigator.addProtocol (js "http://a.b") = js "http://a.b".
Proof.
  assert (H : UrlNavigator.handleNavigate
                (UrlNavigator.handleUrlChange (fun _ => true) (js "http://a.b")
                   (UrlNavigator.mkState [] true))
              = Some (js "http://a.b"))
    by (vm_compute; reflexivity).
  destruct (typed_url_is_validated (fun _ => true) _ _ _ H) as [Ht _].
  symmetry. exact Ht.
Defined.

(** ** The message history *)

Section MessageHistoryFacts.
Context {Payload Time : Type}.
Abbreviation Item := (@MessageContext.MessageHistoryItem Payload Time).

Lemma filter_other_ids (id0 : jsstring) (h : list Item) :
  id0 ∉ map MessageContext.id h ->
  MessageContext.removeHistoryItem id0 h = h.
Proof.
  unfold MessageContext.removeHistoryItem.
  induction h as [|item h IH]; intros Hnot; [reflexivity|].
  cbn [map] in Hnot. apply not_elem_of_cons in Hnot as [Hne Hnot].
  rewrite filter_cons_True by congruence. rewrite IH by exact Hnot.
  reflexivity.
Qed.

(** X17.  Removing the entry that was just added, under an id that no
    other entry has, gives back the history as it was; and adding an entry
    under such an id keeps the ids of the history distinct. *)
Theorem remove_added_item (newId : jsstring) (now : Time) (payload : Payload)
    (success : bool) (target : option jsstring) (prev : list Item) :
  newId ∉ map MessageContext.id prev ->
  MessageContext.removeHistoryItem newId
    (MessageContext.addMessageToHistory newId now payload success target prev)
  = prev /\
  (NoDup (map MessageContext.id prev) ->
   NoDup (map MessageContext.id
            (MessageContext.addMessageToHistory newId now payload success
               target prev))).
Proof.
  intros Hfresh. split.
  - unfold MessageContext.addMessageToHistory.
    unfold MessageContext.removeHistoryItem at 1.
    rewrite filter_cons_False by (cbn; tauto).
    apply filter_other_ids, Hfresh.
  - intros Hnd. unfold MessageContext.addMessageToHistory. cbn [map].
    apply NoDup_cons. split; assumption.
Qed.

(** X18.  When the ids of the history are distinct, [removeHistoryItem]
    removes exactly the entry with the given id and keeps the others in
    order; in any case no entry with that id is left and the ids stay
    distinct. *)
Theorem remove_exactly_one (h1 h2 : list Item) (item : Item) :
  NoDup (map MessageContext.id (h1 ++ item :: h2)) ->
  MessageContext.removeHistoryItem (MessageContext.id item)
    (h1 ++ item :: h2) = h1 ++ h2 /\
  (MessageContext.id item ∉ map MessageContext.id (h1 ++ h2)) /\
  NoDup (map MessageContext.id (h1 ++ h2)).
Proof.
  intros Hnd. rewrite map_app in Hnd. cbn [map] in Hnd.
  apply NoDup_app in Hnd as (Hnd1 & Hdisj & Hnd2).
  apply NoDup_cons in Hnd2 as [Hnot2 Hnd2].
  assert (Hnot1 : MessageContext.id item ∉ map MessageContext.id h1).
  { intros Hin. apply (Hdisj _ Hin). left. }
  split; [|split].
  - unfold MessageContext.removeHistoryItem.
    rewrite filter_app, filter_cons_False by tauto.
    fold (MessageContext.removeHistoryItem (MessageContext.id item) h1).
    fold (MessageContext.removeHistoryItem (MessageContext.id item) h2).
    rewrite !filter_other_ids by assumption. reflexivity.
  - rewrite map_app. intros Hin. apply elem_of_app in Hin. tauto.
  - rewrite map_app. apply NoDup_app.
    split; [exact Hnd1|]. split; [|exact Hnd2].
    intros x Hx1 Hx2. apply (Hdisj x Hx1). right. exact Hx2.
Qed.

End MessageHistoryFacts.

(** A history of two entries, a third one added and removed. *)
Lemma remove_added_item_witness :
  MessageContext.removeHistoryItem (js "c3")
    (MessageContext.addMessageToHistory (js "c3") 2%nat tt true None
       [MessageContext.mkItem (js "b2") 1%nat tt false None;
        MessageContext.mkItem (js "a1") 0%nat tt true None])
  = [MessageContext.mkItem (js "b2") 1%nat tt false None;
     MessageContext.mkItem (js "a1") 0%nat tt true None].
Proof.
  apply (remove_added_item (js "c3") 2%nat tt true None
           [MessageContext.mkItem (js "b2") 1%nat tt false None;
            MessageContext.mkItem (js "a1") 0%nat tt true None]).
  cbn [map MessageContext.id]. rewrite !not_elem_of_cons.
  repeat split; try discriminate. apply not_elem_of_nil.
Defined.

(** Two entries, the second removed. *)
Lemma remove_exactly_one_witness :
  MessageContext.removeHistoryItem (js "b2")
    [MessageContext.mkItem (js "a1") 0%nat tt true None;
     MessageContext.mkItem (js "b2") 1%nat tt false None]
  = [MessageContext.mkItem (js "a1") 0%nat tt true None].
Proof.
  apply (remove_exactly_one
           [MessageContext.mkItem (js "a1") 0%nat tt true None] []
           (MessageContext.mkItem (js "b2") 1%nat tt false None)).
  cbn [map app MessageContext.id].
  apply NoDup_cons. split.
  - intros Hin. apply list_elem_of_singleton in Hin. discriminate.
  - apply NoDup_singleton.
Defined.

(** ** The native bridge *)

(** X19.  A message that [closeModule] posts goes to the bridge that
    [detectBridgeType] reports: when a bridge received it, that bridge is
    the detected one and is not [NONE].  When a non-empty callback URL is
    stored, nothing is ever posted to a bridge, whatever the window holds. *)
Theorem posted_bridge_is_detected (URL_accepts : jsstring -> bool)
    (callbackUrl : option jsstring) (window : Bridge.Window)
    (b : Bridge.BridgeType) :
  Bridge.closeModule URL_accepts callbackUrl window = Bridge.Posted b ->
  Bridge.detectBridgeType window = b /\ b <> Bridge.NONE /\
  (callbackUrl = None \/ callbackUrl = Some []).
Proof.
  unfold Bridge.closeModule.
  destruct callbackUrl as [[|c u]|];
    try (destruct (URL_accepts (c :: u)); discriminate);
    (destruct (Bridge.sendNativeMessage window) as [b'|] eqn:E;
       [|discriminate]);
    intros [= <-];
    unfold Bridge.sendNativeMessage, Bridge.detectBridgeType in *;
    destruct window as [rn wk an]; cbn in *;
    destruct rn, wk as [| | |h], an; try destruct h; cbn in *;
    try discriminate; injection E as <-;
    (split; [reflexivity|split; [discriminate|tauto]]).
Qed.

(** Only the Android bridge is present. *)
Lemma posted_bridge_is_detected_witness :
  Bridge.detectBridgeType
    (Bridge.mkWindow Bridge.Absent Bridge.NoWebkit Bridge.Delivers)
  = Bridge.ANDROID.
Proof.
  apply (posted_bridge_is_detected (fun _ => true) None
           (Bridge.mkWindow Bridge.Absent Bridge.NoWebkit Bridge.Delivers)
           Bridge.ANDROID).
  reflexivity.
Defined.

(** X20.  When [window.webkit] is set but has no [messageHandlers] and the
    React Native handler is absent, [sendNativeMessage] returns [false]
    without posting, even with a working Android bridge, which
    [detectBridgeType] does report: reading [jsMessageHandler] throws before
    the Android branch is reached. *)
Theorem webkit_without_handlers_blocks_android (window : Bridge.Window) :
  Bridge.ReactNativeWebView window = Bridge.Absent ->
  Bridge.webkit window = Bridge.NoMessageHandlers ->
  Bridge.androidBridge window = Bridge.Delivers ->
  Bridge.detectBridgeType window = Bridge.ANDROID /\
  Bridge.sendNativeMessage window = None /\
  (forall URL_accepts,
     Bridge.closeModule URL_accepts None window = Bridge.NotSent).
Proof.
  destruct window as [rn wk an]. cbn. intros -> -> ->.
  repeat split.
Qed.

Lemma webkit_without_handlers_blocks_android_witness :
  Bridge.sendNativeMessage
    (Bridge.mkWindow Bridge.Absent Bridge.NoMessageHandlers Bridge.Delivers)
  = None.
Proof.
  apply (webkit_without_handlers_blocks_android
           (Bridge.mkWindow Bridge.Absent Bridge.NoMessageHandlers
              Bridge.Delivers));
    reflexivity.
Defined.

(** X21.  The editor shows "Invalid JSON format" exactly when [JSON.parse]
    throws or when [closeModule] throws on a stored callback URL that the
    URL constructor rejects; in that case nothing is added to the history.
    Otherwise one entry is added, with the parsed payload and the value
    returned by [closeModule], and the status is [success] exactly when that
    value is [true]. *)
Theorem invalid_json_message {Payload : Type}
    (URL_accepts : jsstring -> bool)
    (JSON_parse : jsstring -> option Payload) (jsonValue : jsstring)
    (callbackUrl : option jsstring) (window : Bridge.Window) :
  let res :=
    Bridge.handleSendMessage URL_accepts JSON_parse jsonValue callbackUrl
      window in
  let threw :=
    JSON_parse jsonValue = None \/
    Bridge.closeModule URL_accepts callbackUrl window = Bridge.UrlError in
  (Bridge.errorText res = Some (js "Invalid JSON format") <-> threw) /\
  (Bridge.logged res = None <-> threw) /\
  (forall payload ok,
     Bridge.logged res = Some (payload, ok) ->
     JSON_parse jsonValue = Some payload /\
     Bridge.returned (Bridge.closeModule URL_accepts callbackUrl window)
     = Some ok /\
     (Bridge.status res = Bridge.success <-> ok = true)).
Proof.
  cbv zeta. unfold Bridge.handleSendMessage.
  destruct (JSON_parse jsonValue) as [payload|];
    [|cbn; repeat split; intros; try tauto; discriminate].
  destruct (Bridge.closeModule URL_accepts callbackUrl window) as [u|b| |];
    cbn; repeat split; intros;
    repeat match goal with
           | H : _ \/ _ |- _ => destruct H
           | H : Some _ = Some _ |- _ => injection H as <- <-
           end;
    try tauto; try discriminate; try congruence; try (right; reflexivity).
Qed.
